(** * IQ data server and generator: a shallow embedding

    The server ([main.go] of the backend) keeps the most recent IQ samples in
    a global slice [iqStore], fed by [POST /webhook] and served by
    [GET /api/iq-data]; the generator ([faker/main.go]) produces batches of
    sine/cosine samples.  Go's [float64] is the binary64 type of
    [PrimFloat]; slices are lists, [len] is [length], and the re-slicing
    [s[len(s)-n:]] is [drop (length s - n) s].  The log lines, the network
    and the pause between two sends of the generator are left out. *)

From Stdlib Require Import ZArith Ascii String.
From Stdlib.Floats Require Import PrimFloat SpecFloat FloatOps FloatAxioms.
From Stdlib.Numbers.Cyclic.Int63 Require Import Uint63.
From stdpp Require Import base list strings gmap.

Local Open Scope nat_scope.

(** ** Data model *)

(** [type IQData struct { Time, Real, Imaginary float64 }] *)
Record IQData : Type := mkIQData {
  Time : float;
  Real : float;
  Imaginary : float
}.

(** The zero value of the struct. *)
Definition IQData_zero : IQData := mkIQData 0%float 0%float 0%float.

(** The contents of the global [iqStore], oldest sample first. *)
Abbreviation Store := (list IQData).

(** [var iqStore = []IQData{}] *)
Definition iqStore_init : Store := [].

(** [const maxDataPoints = 1000] *)
Definition maxDataPoints : nat := 1000.

(** ** The buffer update of the webhook handler *)

Module Buffer.

(** [if len(s) > limit { s = s[len(s)-limit:] }] *)
Definition trim (limit : nat) (s : Store) : Store :=
  if limit <? length s then drop (length s - limit) s else s.

(** [iqStore = append(iqStore, newData...)] followed by the trim, for a
    buffer bounded by [limit]. *)
Definition append_trim (limit : nat) (s newData : Store) : Store :=
  trim limit (s ++ newData).

(** The store after a whole sequence of batches. *)
Definition append_all (limit : nat) (s : Store) (batches : list Store) : Store :=
  foldl (append_trim limit) s batches.

(** The store after each successive batch of a sequence. *)
Fixpoint trace (limit : nat) (s : Store) (batches : list Store) : list Store :=
  match batches with
  | [] => []
  | b :: bs => let s' := append_trim limit s b in s' :: trace limit s' bs
  end.

End Buffer.

(** Lines 56-61 of the handler, with the constant of the program. *)
Definition storeAppend (s newData : Store) : Store :=
  Buffer.append_trim maxDataPoints s newData.

(** ** The HTTP layer *)

(** What a handler wrote as the response body. *)
Inductive Body : Type :=
| NoBody
| BodyH (obj : gmap string string)    (* a [gin.H] rendered by [c.JSON] *)
| BodySamples (data : Store)          (* a [[]IQData] rendered by [c.JSON] *)
| BodyText (text : string).

Definition StatusOK : nat := 200.
Definition StatusNoContent : nat := 204.
Definition StatusBadRequest : nat := 400.
Definition StatusNotFound : nat := 404.

(** The request context: the request line and the response writer.
    [Header] is an [http.Header], a map from a key to its list of values. *)
Record Context : Type := mkContext {
  Method : string;
  Path : string;
  Header : gmap string (list string);
  Status : nat;
  Sent : Body;            (* the response body *)
  Aborted : bool
}.

(** A handler reads and writes its context and the global store. *)
Definition HandlerFunc : Type := Context -> Store -> Context * Store.

(** [c.Writer.Header().Set(key, value)]: replaces whatever the key held. *)
Definition Header_Set (key value : string) (c : Context) : Context :=
  mkContext (Method c) (Path c) (<[key := [value]]> (Header c))
            (Status c) (Sent c) (Aborted c).

(** [c.AbortWithStatus(code)]: the status, no body, and the rest of the
    chain is skipped. *)
Definition AbortWithStatus (code : nat) (c : Context) : Context :=
  mkContext (Method c) (Path c) (Header c) code (Sent c) true.

(** [c.JSON(code, obj)]: the status, the JSON content type unless one is
    set, and the rendered value. *)
Definition JSON (code : nat) (obj : Body) (c : Context) : Context :=
  let h := match Header c !! "Content-Type"%string with
           | Some (_ :: _) => Header c
           | _ => <["Content-Type"%string := ["application/json; charset=utf-8"%string]]> (Header c)
           end in
  mkContext (Method c) (Path c) h code obj (Aborted c).

(** The middleware installed by [r.Use] (lines 28-39); [next] is the rest
    of the chain, run by [c.Next()]. *)
Definition corsMiddleware (next : HandlerFunc) : HandlerFunc := fun c s =>
  let c := Header_Set "Access-Control-Allow-Origin" "http://localhost:5173" c in
  let c := Header_Set "Access-Control-Allow-Origin" "*" c in
  let c := Header_Set "Access-Control-Allow-Methods" "POST, GET, OPTIONS" c in
  let c := Header_Set "Access-Control-Allow-Headers" "Content-Type, Authorization" c in
  let c := Header_Set "Access-Control-Allow-Credentials" "true" c in
  if String.eqb (Method c) "OPTIONS" then (AbortWithStatus StatusNoContent c, s)
  else next c s.

(** [GET /api/iq-data] (lines 68-70). *)
Definition getIQData : HandlerFunc := fun c s =>
  (JSON StatusOK (BodySamples s) c, s).

Section Webhook.

(** The request payload and gin's [c.ShouldBindJSON(&newData)], which
    yields either an error or the decoded slice. *)
Context {Payload BindError : Type}.
Variable ShouldBindJSON : Payload -> BindError + Store.

(** [POST /webhook] (lines 42-65). *)
Definition postWebhook (body : Payload) : HandlerFunc := fun c s =>
  match ShouldBindJSON body with
  | inl _ =>
      (JSON StatusBadRequest (BodyH {[ "error"%string := "Invalid JSON format"%string ]}) c, s)
  | inr newData =>
      let s := s ++ newData in
      let s := if maxDataPoints <? length s
               then drop (length s - maxDataPoints) s else s in
      (JSON StatusOK (BodyH {[ "status"%string := "received"%string ]}) c, s)
  end.

(** A request as the engine receives it. *)
Record Request : Type := mkRequest {
  ReqMethod : string;
  ReqPath : string;
  ReqBody : Payload
}.

(** The route table built in [main]: both patterns are literal paths. *)
Definition route (r : Request) : option HandlerFunc :=
  if String.eqb (ReqMethod r) "POST" && String.eqb (ReqPath r) "/webhook"
  then Some (postWebhook (ReqBody r))
  else if String.eqb (ReqMethod r) "GET" && String.eqb (ReqPath r) "/api/iq-data"
  then Some getIQData
  else None.

(** The engine's answer when no route matches: status 404 and, if the
    chain wrote nothing, the default text. *)
Definition noRoute : HandlerFunc := fun c s =>
  (mkContext (Method c) (Path c)
             (<["Content-Type"%string := ["text/plain"%string]]> (Header c))
             StatusNotFound (BodyText "404 page not found") (Aborted c), s).

(** A fresh context for a request: no header set, status 200, nothing
    written. *)
Definition newContext (r : Request) : Context :=
  mkContext (ReqMethod r) (ReqPath r) ∅ StatusOK NoBody false.

(** One request through the engine: the middleware, then the matching
    handler.  (The engine's redirect of a POST or GET to a registered path
    written with a trailing slash is left out.) *)
Definition ServeHTTP (r : Request) (s : Store) : Context * Store :=
  let h := match route r with Some h => h | None => noRoute end in
  corsMiddleware h (newContext r) s.

(** A sequence of requests served one after the other: the responses and
    the final store. *)
Fixpoint serveAll (rs : list Request) (s : Store) : list Context * Store :=
  match rs with
  | [] => ([], s)
  | r :: rs' =>
      let '(c, s') := ServeHTTP r s in
      let '(cs, s'') := serveAll rs' s' in
      (c :: cs, s'')
  end.

End Webhook.

(** ** Decoding the request body

    [ShouldBindJSON] is gin's; what it does to a [*[]IQData] follows from
    the struct declaration (three [float64] fields tagged [time], [real] and
    [imaginary], none of them required) and the rules of [encoding/json].
    The body is taken after lexing: the first JSON value of the text (the
    decoder reads no further), or nothing when the text does not begin with
    one. *)

#[local] Unset Elimination Schemes.
Inductive JSONValue : Type :=
| JNull
| JBool (b : bool)
| JNumber (v : float)           (* the literal as [strconv.ParseFloat] reads it *)
| JString (s : string)
| JArray (elems : list JSONValue)
| JObject (members : list (string * JSONValue)).
#[local] Set Elimination Schemes.

Inductive DecodeError : Type :=
| SyntaxError
| UnmarshalTypeError.

Inductive Field : Type := FTime | FReal | FImaginary.

Definition fieldTag (f : Field) : string :=
  match f with
  | FTime => "time"
  | FReal => "real"
  | FImaginary => "imaginary"
  end.

Definition fields : list Field := [FTime; FReal; FImaginary].

Definition getField (f : Field) (d : IQData) : float :=
  match f with
  | FTime => Time d
  | FReal => Real d
  | FImaginary => Imaginary d
  end.

Definition setField (f : Field) (v : float) (d : IQData) : IQData :=
  match f with
  | FTime => mkIQData v (Real d) (Imaginary d)
  | FReal => mkIQData (Time d) v (Imaginary d)
  | FImaginary => mkIQData (Time d) (Real d) v
  end.

(** Case folding of a key; the three tags are plain lower-case ASCII. *)
Definition foldByte (c : ascii) : ascii :=
  let n := nat_of_ascii c in
  if (65 <=? n) && (n <=? 90) then ascii_of_nat (n + 32) else c.

Fixpoint foldName (s : string) : string :=
  match s with
  | EmptyString => EmptyString
  | String c r => String (foldByte c) (foldName r)
  end.

(** The field a key binds to: an exact match of the tag, else a match up
    to case; no field for any other key. *)
Definition findField (key : string) : option Field :=
  match List.find (fun f => String.eqb (fieldTag f) key) fields with
  | Some f => Some f
  | None => List.find (fun f => String.eqb (fieldTag f) (foldName key)) fields
  end.

(** A number literal fits a [float64] unless it overflows. *)
Definition fits (v : float) : bool := negb (is_nan v || is_infinity v).

(** One member of an object: an unknown key is skipped, [null] leaves the
    field as it is, a number is stored, anything else is a type error (the
    decoder goes on and reports the error at the end). *)
Definition decodeMember (acc : IQData * bool) (m : string * JSONValue) : IQData * bool :=
  match findField (fst m) with
  | None => acc
  | Some f =>
      match snd m with
      | JNull => acc
      | JNumber v => if fits v then (setField f v (fst acc), snd acc) else (fst acc, false)
      | _ => (fst acc, false)
      end
  end.

(** One array element into a fresh (zero) struct. *)
Definition decodeIQData (v : JSONValue) : IQData * bool :=
  match v with
  | JNull => (IQData_zero, true)
  | JObject members => foldl decodeMember (IQData_zero, true) members
  | _ => (IQData_zero, false)
  end.

(** How deep arrays and objects are nested in a value. *)
Fixpoint depth (v : JSONValue) : nat :=
  match v with
  | JArray elems => S (list_max (map depth elems))
  | JObject members => S (list_max (map (fun m => let '(_, x) := m in depth x) members))
  | _ => 0
  end.

(** The scanner of [encoding/json] gives up on a value nested deeper than
    this. *)
Definition maxNestingDepth : nat := 100 * 100.

(** A scanned value into [newData]. *)
Definition decodeValue (v : JSONValue) : DecodeError + Store :=
  match v with
  | JNull => inr []
  | JArray elems =>
      let ds := map decodeIQData elems in
      if forallb snd ds then inr (map fst ds) else inl UnmarshalTypeError
  | _ => inl UnmarshalTypeError
  end.

(** The value is nested no deeper than the scanner allows. *)
Definition scannable (v : JSONValue) : bool := depth v <=? maxNestingDepth.

(** The whole body into [newData]: the value is scanned first, unknown
    members included, then decoded. *)
Definition bindJSON (body : option JSONValue) : DecodeError + Store :=
  match body with
  | None => inl SyntaxError
  | Some v => if scannable v then decodeValue v else inl SyntaxError
  end.

(** The server of [main]: the handlers with gin's binder. *)
Definition server (r : Request) (s : Store) : Context * Store :=
  ServeHTTP bindJSON r s.

(** ** The generator *)

(** [float64(i)] for an [int]. *)
Definition float64_of_int (i : Z) : float :=
  if (i <? 0)%Z then PrimFloat.opp (of_uint63 (Uint63.of_Z (- i)))
  else of_uint63 (Uint63.of_Z i).

(** The constant [0.1] as a [float64]. *)
Definition tenth : float := 0x1.999999999999ap-4%float.

(** [t := startTime + float64(i)*0.1], product and sum rounded one after
    the other (a target that fuses the two may differ in the last bit). *)
Definition timeAt (startTime : float) (i : nat) : float :=
  (startTime + float64_of_int (Z.of_nat i) * tenth)%float.

Section Faker.

(** [math.Sin] and [math.Cos]. *)
Variables Sin Cos : float -> float.

(** The body of the loop of [generateIQData] (lines 26-38). *)
Definition sampleAt (startTime : float) (i : nat) : IQData :=
  let t := timeAt startTime i in
  mkIQData t (Sin t) (Cos t).

(** The loop [for i := ...; i < count; i++ { data[i] = ... }], with [n]
    iterations left. *)
Fixpoint fillFrom (n i : nat) (startTime : float) (data : Store) : Store :=
  match n with
  | 0 => data
  | S n' => fillFrom n' (S i) startTime (<[i := sampleAt startTime i]> data)
  end.

(** [generateIQData(count, startTime)]; [make] panics on a negative
    length (the limit the runtime puts on the size of one allocation is
    left out). *)
Definition generateIQData (count : Z) (startTime : float) : option Store :=
  if (count <? 0)%Z then None
  else let n := Z.to_nat count in
       Some (fillFrom n 0 startTime (replicate n IQData_zero)).

(** One turn of the loop of [main] (lines 96-99): the batch and the new
    [currentTime]. *)
Definition mainTurn (dataPoints : Z) (currentTime : float) : option (Store * float) :=
  match generateIQData dataPoints currentTime with
  | None => None
  | Some data => Some (data, (currentTime + float64_of_int dataPoints * tenth)%float)
  end.

(** The batches of the first [n] turns, starting from [currentTime]. *)
Fixpoint mainBatches (n : nat) (dataPoints : Z) (currentTime : float) : option (list Store) :=
  match n with
  | 0 => Some []
  | S n' =>
      match mainTurn dataPoints currentTime with
      | None => None
      | Some (data, t') =>
          match mainBatches n' dataPoints t' with
          | None => None
          | Some rest => Some (data :: rest)
          end
      end
  end.

End Faker.

(** [var currentTime float64 = 0.0] and the default of the [points] flag. *)
Definition currentTime_init : float := 0%float.
Definition dataPoints_default : Z := 10.

(** Each time field below the next one. *)
Fixpoint increasing (ts : list float) : bool :=
  match ts with
  | [] => true
  | t :: rest =>
      match rest with
      | [] => true
      | u :: _ => PrimFloat.ltb t u && increasing rest
      end
  end.

(** The time fields of a run, batch after batch. *)
Definition timesOf (batches : list Store) : list float :=
  map Time (concat batches).

(** ** Handlers running at the same time

    The engine runs every request in a goroutine of its own and the program
    takes no lock.  A handler is cut at its statements on [iqStore]: line 56
    (append), lines 59-61 (trim), line 69 (read). *)

Module Interleaving.

Inductive Thread : Type :=
| PostAtAppend (newData : Store)   (* a POST that has parsed its body *)
| PostAtTrim                       (* after line 56, before line 59 *)
| PostDone
| GetAtRead                        (* a GET before line 69 *)
| GetDone (snapshot : Store).      (* the slice it sent *)

(** The next statement of a thread on the shared store. *)
Definition step (t : Thread) (s : Store) : Thread * Store :=
  match t with
  | PostAtAppend newData => (PostAtTrim, s ++ newData)
  | PostAtTrim => (PostDone, Buffer.trim maxDataPoints s)
  | PostDone => (PostDone, s)
  | GetAtRead => (GetDone s, s)
  | GetDone snap => (GetDone snap, s)
  end.

Record Config : Type := mkConfig {
  threads : list Thread;
  iqStore : Store
}.

(** The scheduler lets thread [i] run one statement. *)
Definition sched (cfg : Config) (i : nat) : Config :=
  match threads cfg !! i with
  | None => cfg
  | Some t =>
      let '(t', s') := step t (iqStore cfg) in
      mkConfig (<[i := t']> (threads cfg)) s'
  end.

Definition run (schedule : list nat) (cfg : Config) : Config :=
  foldl sched cfg schedule.

(** What thread [i] sent, if it is a GET that has answered. *)
Definition snapshotOf (cfg : Config) (i : nat) : option Store :=
  match threads cfg !! i with
  | Some (GetDone snap) => Some snap
  | _ => None
  end.

(** Requests at the level of the store. *)
Inductive Req : Type :=
| Post (newData : Store)
| Get.

Definition spawn (r : Req) : Thread :=
  match r with
  | Post newData => PostAtAppend newData
  | Get => GetAtRead
  end.

Definition start (rs : list Req) : Config :=
  mkConfig (map spawn rs) iqStore_init.

(** The schedule that runs each handler to its end before the next one
    begins: threads [i], [i+1], ..., two statements each. *)
Fixpoint serial (i n : nat) : list nat :=
  match n with
  | 0 => []
  | S n' => i :: i :: serial (S i) n'
  end.

(** The handlers one at a time: the store after a request, and what the
    threads have become. *)
Definition handle (r : Req) (s : Store) : Thread * Store :=
  match r with
  | Post newData => (PostDone, storeAppend s newData)
  | Get => (GetDone s, s)
  end.

Fixpoint handleAll (rs : list Req) (s : Store) : list Thread * Store :=
  match rs with
  | [] => ([], s)
  | r :: rs' =>
      let '(t, s') := handle r s in
      let '(ts, s'') := handleAll rs' s' in
      (t :: ts, s'')
  end.

(** Every snapshot a run can send holds at most [maxDataPoints] samples. *)
Definition snapshots_bounded : Prop :=
  forall (rs : list Req) (schedule : list nat) (i : nat) (snap : Store),
    snapshotOf (run schedule (start rs)) i = Some snap ->
    length snap <= maxDataPoints.

End Interleaving.

(** ** Requests and inputs used below *)

Definition POST_webhook {Payload} (body : Payload) : Request :=
  mkRequest "POST" "/webhook" body.
Definition GET_iq_data {Payload} (body : Payload) : Request :=
  mkRequest "GET" "/api/iq-data" body.
Definition OPTIONS_at {Payload} (path : string) (body : Payload) : Request :=
  mkRequest "OPTIONS" path body.

(** The context the middleware hands to the rest of the chain. *)
Definition withCORS (c : Context) : Context :=
  Header_Set "Access-Control-Allow-Credentials" "true"
    (Header_Set "Access-Control-Allow-Headers" "Content-Type, Authorization"
      (Header_Set "Access-Control-Allow-Methods" "POST, GET, OPTIONS"
        (Header_Set "Access-Control-Allow-Origin" "*"
          (Header_Set "Access-Control-Allow-Origin" "http://localhost:5173" c)))).

(** A numbered batch, to run the buffer on. *)
Definition ramp (n : nat) : Store :=
  map (fun i => mkIQData (float64_of_int (Z.of_nat i)) 0%float 0%float) (seq 0 n).

(** A member that the decoder takes without an error: a key of no field,
    [null], or a number that fits. *)
Definition memberOK (m : string * JSONValue) : bool :=
  match findField (fst m) with
  | None => true
  | Some _ =>
      match snd m with
      | JNull => true
      | JNumber v => fits v
      | _ => false
      end
  end.

(** No member of the object binds to field [f]. *)
Definition absent (f : Field) (members : list (string * JSONValue)) : Prop :=
  Forall (fun m => findField (fst m) <> Some f) members.

(** An array of objects of which one lacks a field is accepted, whatever
    else the objects hold. *)
Definition missing_fields_always_accepted : Prop :=
  forall (objs : list (list (string * JSONValue))) (s : Store),
    (exists members f, members ∈ objs /\ absent f members) ->
    Status (fst (server (POST_webhook (Some (JArray (map JObject objs)))) s))
    = StatusOK.

(** The time fields of a batch of [n] samples, and of the first [turns]
    batches of [main]. *)
Definition batchTimes (n : nat) (startTime : float) : list float :=
  map (timeAt startTime) (seq 0 n).

Fixpoint mainTimes (turns : nat) (dataPoints : Z) (currentTime : float) : list float :=
  match turns with
  | 0 => []
  | S n' =>
      batchTimes (Z.to_nat dataPoints) currentTime
      ++ mainTimes n' dataPoints (currentTime + float64_of_int dataPoints * tenth)%float
  end.

(** The time fields of every batch, from any start, go up. *)
Definition times_always_increase : Prop :=
  forall (Sin Cos : float -> float) (count : Z) (startTime : float) (data : Store),
    generateIQData Sin Cos count startTime = Some data ->
    increasing (map Time data) = true.

(** ** Binary64 values as integers

    A finite [float64] is [m * 2^e] with [e >= -1074]; multiplied by [2^K]
    it is an integer, so that the sums, products and comparisons of the
    generator can be followed in [Z]. *)

Module Binary64.

Definition K : Z := 2200.

Definition sc (m e : Z) : Z := (m * 2 ^ (e + K))%Z.

Definition val (f : spec_float) : Z :=
  match f with
  | S754_finite s m e => cond_Zopp s (sc (Zpos m) e)
  | _ => 0%Z
  end.

Definition finite (f : spec_float) : bool :=
  match f with
  | S754_finite _ _ _ | S754_zero _ => true
  | _ => false
  end.

Definition Bfin (x : float) : Prop := finite (Prim2SF x) = true.

Definition B2Z (x : float) : Z := val (Prim2SF x).

(** The unit [2^(K-56)]: [tenth] is [Mc] of them, 1.0 is [2^56]. *)
Definition w : Z := (2 ^ (K - 56))%Z.

Definition Mc : Z := 7205759403792794%Z.

(** Below [2^49] the spacing of [float64] is at most 1/16, less than a
    step of 0.1. *)
Definition Bd : Z := ((2 ^ 49 - 2 ^ 37) * 2 ^ 56 * w)%Z.

End Binary64.

(** The largest start of a run considered below, [2^49 - 2^41]; from
    [2^49] on the spacing of [float64] is 1/8 and steps of 0.1 collide. *)
Definition startBound : float := 0x1.fep48%float.

(** ** The batches a sequence of requests gets into the store *)

Section Accepted.

Context {Payload BindError : Type}.
Variable bind : Payload -> BindError + Store.

(** The request is the one the webhook route answers. *)
Definition isWebhookPost (r : @Request Payload) : bool :=
  String.eqb (ReqMethod r) "POST" && String.eqb (ReqPath r) "/webhook".

(** The batch a request appends, if it appends one. *)
Definition acceptedOf (r : @Request Payload) : list Store :=
  if isWebhookPost r
  then match bind (ReqBody r) with inr newData => [newData] | inl _ => [] end
  else [].

Definition accepted (rs : list (@Request Payload)) : list Store :=
  concat (map acceptedOf rs).

End Accepted.

(** The four headers the middleware sets, as a response carries them. *)
Definition hasCORS (c : Context) : Prop :=
  Header c !! "Access-Control-Allow-Origin"%string = Some ["*"%string]
  /\ Header c !! "Access-Control-Allow-Methods"%string = Some ["POST, GET, OPTIONS"%string]
  /\ Header c !! "Access-Control-Allow-Headers"%string
     = Some ["Content-Type, Authorization"%string]
  /\ Header c !! "Access-Control-Allow-Credentials"%string = Some ["true"%string].

(** An array element the decoder takes without an error: [null], or an
    object whose members all pass. *)
Definition elemOK (v : JSONValue) : bool :=
  match v with
  | JNull => true
  | JObject members => forallb memberOK members
  | _ => false
  end.

(** ** The generator's side of the wire *)

Definition fitsSample (d : IQData) : bool :=
  fits (Time d) && fits (Real d) && fits (Imaginary d).

(** One sample as [json.Marshal] writes it: the three tagged fields in the
    order of the struct. *)
Definition marshalIQData (d : IQData) : JSONValue :=
  JObject [("time"%string, JNumber (Time d));
           ("real"%string, JNumber (Real d));
           ("imaginary"%string, JNumber (Imaginary d))].

(** [json.Marshal(data)] for a slice made by [make] (line 47): an array, or
    an error when a field is NaN or infinite. *)
Definition Marshal (data : Store) : option JSONValue :=
  if forallb fitsSample data then Some (JArray (map marshalIQData data)) else None.

(** What becomes of the request: it cannot be built, it gets no answer, or
    it is answered with a status. *)
Inductive RoundTrip : Type :=
| NotCreated
| NotSent
| Answered (code : nat).

(** The four ways [sendToWebhook] returns an error. *)
Inductive SendError : Type :=
| ErrMarshaling
| ErrCreatingRequest
| ErrSendingRequest
| ErrUnexpectedStatus (code : nat).

Section Sender.

(** Whatever is at the other end of [webhookURL], and what
    [http.NewRequest] and [client.Do] make of a body sent to it. *)
Context {World : Type}.
Variable Do : JSONValue -> World -> RoundTrip * World.

(** [sendToWebhook(data, webhookURL)] (lines 45-76); [None] is the [nil]
    error. *)
Definition sendToWebhook (data : Store) (w : World) : option SendError * World :=
  match Marshal data with
  | None => (Some ErrMarshaling, w)
  | Some jsonData =>
      match Do jsonData w with
      | (NotCreated, w') => (Some ErrCreatingRequest, w')
      | (NotSent, w') => (Some ErrSendingRequest, w')
      | (Answered code, w') =>
          if code =? StatusOK then (None, w')
          else (Some (ErrUnexpectedStatus code), w')
      end
  end.

Variables Sin Cos : float -> float.

(** The loop of [main] (lines 94-109) for [n] turns: each turn generates a
    batch, moves [currentTime] on, then sends; an error of the send is only
    logged.  The result lists each batch with the outcome of its send. *)
Fixpoint mainLoop (n : nat) (dataPoints : Z) (currentTime : float) (w : World)
  : option (list (Store * option SendError) * float * World) :=
  match n with
  | 0 => Some ([], currentTime, w)
  | S n' =>
      match generateIQData Sin Cos dataPoints currentTime with
      | None => None
      | Some data =>
          let currentTime := (currentTime + float64_of_int dataPoints * tenth)%float in
          let '(err, w) := sendToWebhook data w in
          match mainLoop n' dataPoints currentTime w with
          | None => None
          | Some (sent, t, w') => Some ((data, err) :: sent, t, w')
          end
      end
  end.

End Sender.

(** The generator pointed at the server: the body arrives at
    [POST /webhook] and the status comes back. *)
Definition postToServer (jsonData : JSONValue) (s : Store) : RoundTrip * Store :=
  let '(c, s') := server (POST_webhook (Some jsonData)) s in
  (Answered (Status c), s').

(** ** The page that draws the samples

    The script of the visualizer page.  JavaScript numbers are binary64;
    the samples are objects with [time], [real] and [imaginary].  Each poll
    is taken to finish before the next one starts. *)

Module Page.

Record Vector3 : Type := mkVector3 {
  vx : float;
  vy : float;
  vz : float
}.

(** The variables of the script that the polling touches; [dataLine] holds
    the points of the drawn line once [createDataLine] has run. *)
Record State : Type := mkState {
  iqData : Store;
  useTestData : bool;
  statusMessage : string;
  dataLine : option (list Vector3)
}.

(** The outcome of [fetch] and [response.json()]: a good answer with its
    data, an answer that is not [ok], or an exception. *)
Inductive Response : Type :=
| Ok (data : Store)
| NotOk
| Threw.

(** The state once [onMount] has run [initScene]. *)
Definition mounted : State :=
  mkState [] false "Connecting to server..." (Some []).

Definition toVector (point : IQData) : Vector3 :=
  mkVector3 (Time point) (Real point) (Imaginary point).

(** [updateGraph()]: nothing without a line or with fewer than two points. *)
Definition updateGraph (st : State) : State :=
  match dataLine st with
  | None => st
  | Some _ =>
      if length (iqData st) <? 2 then st
      else mkState (iqData st) (useTestData st) (statusMessage st)
                   (Some (map toVector (iqData st)))
  end.

(** [array.slice(-n)]: the last [n] elements, all of them if there are
    fewer. *)
Definition sliceLast (n : nat) (l : Store) : Store :=
  drop (length l - n) l.

Section Script.

(** [Math.sin] and [Math.cos]. *)
Variables Sin Cos : float -> float.

(** The body of the loop of [generateTestData]. *)
Definition testPoint (timeCounter : float) (i : nat) : IQData :=
  let time := (timeCounter + float64_of_int (Z.of_nat i) * 0.5)%float in
  mkIQData time (Sin (time * tenth) * 10)%float (Cos (time * tenth) * 10)%float.

Definition timeCounterOf (data : Store) : float :=
  match last data with
  | Some point => (Time point + 0.5)%float
  | None => 0%float
  end.

(** [generateTestData()]: ten more points, the last 100 kept. *)
Definition generateTestData (st : State) : State :=
  let timeCounter := timeCounterOf (iqData st) in
  let testData := map (testPoint timeCounter) (seq 0 10) in
  updateGraph (mkState (sliceLast 100 (iqData st ++ testData))
                       (useTestData st) (statusMessage st) (dataLine st)).

(** [fetchData()], with [resp] the outcome of the fetch when it is made. *)
Definition fetchData (resp : Response) (st : State) : State :=
  if useTestData st then generateTestData st
  else match resp with
       | Ok data =>
           let st := updateGraph (mkState data (useTestData st) (statusMessage st)
                                          (dataLine st)) in
           mkState (iqData st) (useTestData st)
                   "Connected to server - using real data" (dataLine st)
       | NotOk =>
           generateTestData (mkState (iqData st) true
                                     "Server error - using simulated data" (dataLine st))
       | Threw =>
           generateTestData (mkState (iqData st) true
                                     "Server unavailable - using simulated data"
                                     (dataLine st))
       end.

(** The polls of [setInterval], one outcome each. *)
Definition polls (resps : list Response) (st : State) : State :=
  foldl (fun st resp => fetchData resp st) st resps.

End Script.

(** What the page gets from the server holding [s]: [response.ok] is a
    status from 200 to 299, and the body read back is the array sent. *)
Definition fetchFrom (s : Store) : Response :=
  let c := fst (server (GET_iq_data None) s) in
  if (200 <=? Status c) && (Status c <=? 299)
  then match Sent c with
       | BodySamples data => Ok data
       | _ => Threw
       end
  else NotOk.

End Page.

(** * Properties *)

(** ** The bounded buffer *)

Section BufferFacts.

Variable limit : nat.
Implicit Types s b : Store.

Lemma trim_drop s : Buffer.trim limit s = drop (length s - limit) s.
Proof.
  unfold Buffer.trim. destruct (Nat.ltb_spec limit (length s)) as [Hlt|Hge].
  - reflexivity.
  - replace (length s - limit) with 0 by lia. reflexivity.
Qed.

Lemma trim_length s : length (Buffer.trim limit s) <= limit.
Proof. rewrite trim_drop, length_drop. lia. Qed.

Lemma trim_length_eq s : length (Buffer.trim limit s) = length s `min` limit.
Proof. rewrite trim_drop, length_drop. lia. Qed.

Lemma trim_small s : length s <= limit -> Buffer.trim limit s = s.
Proof. intros H. rewrite trim_drop. replace (length s - limit) with 0 by lia. reflexivity. Qed.

Lemma trim_suffix s : Buffer.trim limit s `suffix_of` s.
Proof. rewrite trim_drop. apply suffix_drop. Qed.

(** Trimming before an append changes nothing once the result is trimmed. *)
Lemma trim_app_trim s b :
  Buffer.trim limit (Buffer.trim limit s ++ b) = Buffer.trim limit (s ++ b).
Proof.
  rewrite !trim_drop.
  rewrite (drop_app s b), (drop_app (drop _ s) b), drop_drop.
  rewrite !length_app, !length_drop.
  f_equal; f_equal; lia.
Qed.

(** The store after any sequence of batches is the trimmed history. *)
Lemma append_all_history bs : forall s,
  length s <= limit ->
  Buffer.append_all limit s bs = Buffer.trim limit (s ++ concat bs).
Proof.
  induction bs as [|b bs IH]; intros s Hs; simpl.
  - rewrite app_nil_r. symmetry. by apply trim_small.
  - unfold Buffer.append_all in *. simpl. rewrite IH by apply trim_length.
    unfold Buffer.append_trim. rewrite trim_app_trim. by rewrite app_assoc.
Qed.

Lemma append_all_cons s b bs :
  Buffer.append_all limit s (b :: bs) = Buffer.trim limit (s ++ b ++ concat bs).
Proof.
  unfold Buffer.append_all. simpl.
  change (foldl (Buffer.append_trim limit) ?x bs) with (Buffer.append_all limit x bs).
  rewrite append_all_history by apply trim_length.
  unfold Buffer.append_trim. rewrite trim_app_trim. by rewrite app_assoc.
Qed.

End BufferFacts.

(** A suffix of two segments put end to end is a suffix of the first
    followed by a suffix of the second, and the second is whole as soon as
    anything of the first is left. *)
Lemma suffix_app_split {A} (l a b : list A) :
  l `suffix_of` a ++ b ->
  exists a' b', l = a' ++ b' /\ a' `suffix_of` a /\ b' `suffix_of` b /\
                (a' <> [] -> b' = b).
Proof.
  intros [k Hk]. apply app_eq_inv in Hk as [(m & -> & ->)|(m & -> & ->)].
  - exists m, b. repeat split; [by exists k | done].
  - exists [], l. repeat split; [apply suffix_nil | by exists m | done].
Qed.

(** The run of the scenario with capacity 3: one sample, then three. *)
Example scenario_capacity_3 :
  Buffer.append_all 3 iqStore_init [ramp 1; drop 1 (ramp 4)] = drop 1 (ramp 4).
Proof. vm_compute. reflexivity. Qed.

(** Three pieces that are suffixes of three segments and fill their whole
    length are the segments themselves. *)
Lemma suffix_app3_whole {A} (m b l M B L : list A) :
  m `suffix_of` M -> b `suffix_of` B -> l `suffix_of` L ->
  m ++ b ++ l = M ++ B ++ L ->
  m = M /\ b = B /\ l = L.
Proof.
  intros Hm Hb Hl Heq.
  pose proof (suffix_length _ _ Hm). pose proof (suffix_length _ _ Hb).
  pose proof (suffix_length _ _ Hl).
  pose proof (f_equal length Heq) as Hlen. rewrite !length_app in Hlen.
  apply app_inj_1 in Heq as [-> Heq]; [|lia].
  apply app_inj_1 in Heq as [-> ->]; [done|lia].
Qed.

(** C1. Capacity invariant: whatever the buffer holds and whatever batches
    the webhook appends to it, the buffer holds at most [maxDataPoints]
    (1000) samples after each append. *)
Theorem capacity_invariant (s : Store) (batches : list Store) :
  Forall (fun st => length st <= maxDataPoints)
         (Buffer.trace maxDataPoints s batches).
Proof.
  revert s. induction batches as [|b bs IH]; intros s; simpl.
  - constructor.
  - constructor.
    + unfold Buffer.append_trim. apply trim_length.
    + apply IH.
Qed.

(** C2. Eviction correctness: a batch of more than [limit] samples appended
    to the empty buffer of capacity [limit] leaves exactly the last [limit]
    samples of the batch, in the order of the batch. *)
Theorem eviction_keeps_last (limit : nat) (batch : Store) :
  limit < length batch ->
  Buffer.append_trim limit iqStore_init batch = drop (length batch - limit) batch
  /\ length (Buffer.append_trim limit iqStore_init batch) = limit
  /\ batch = take (length batch - limit) batch
             ++ Buffer.append_trim limit iqStore_init batch.
Proof.
  intros Hlt. unfold Buffer.append_trim, iqStore_init. simpl.
  rewrite trim_drop. split; [done|]. split.
  - rewrite length_drop. lia.
  - by rewrite take_drop.
Qed.

Lemma eviction_keeps_last_witness :
  storeAppend iqStore_init (ramp 1001) = drop (length (ramp 1001) - maxDataPoints) (ramp 1001)
  /\ length (storeAppend iqStore_init (ramp 1001)) = maxDataPoints
  /\ ramp 1001 = take (length (ramp 1001) - maxDataPoints) (ramp 1001)
                 ++ storeAppend iqStore_init (ramp 1001).
Proof.
  apply (eviction_keeps_last maxDataPoints (ramp 1001)).
  unfold ramp. rewrite length_map, length_seq. unfold maxDataPoints. lia.
Defined.

(** C3. Order preservation: after batch [B1], any batches [mids], batch
    [B2] and any later batches, the snapshot is the tail of the history
    [s, B1, mids, B2, later]: what is left of [B1] comes before what is left
    of [B2], each as a final segment of its batch in the batch's own order,
    and nothing is missing between two samples that survive. *)
Theorem order_preserved (limit : nat) (s B1 B2 : Store) (mids later : list Store) :
  let snap := Buffer.append_all limit s (B1 :: mids ++ B2 :: later) in
  snap = Buffer.trim limit (s ++ B1 ++ concat mids ++ B2 ++ concat later) /\
  exists p b1 m b2 l,
    snap = p ++ b1 ++ m ++ b2 ++ l /\
    p `suffix_of` s /\ b1 `suffix_of` B1 /\ m `suffix_of` concat mids /\
    b2 `suffix_of` B2 /\ l `suffix_of` concat later /\
    (b1 <> [] -> m = concat mids /\ b2 = B2 /\ l = concat later) /\
    (b2 <> [] -> l = concat later).
Proof.
  intros snap.
  assert (Hsnap : snap = Buffer.trim limit (s ++ B1 ++ concat mids ++ B2 ++ concat later)).
  { unfold snap. rewrite append_all_cons, concat_app. reflexivity. }
  split; [exact Hsnap|].
  pose proof (trim_suffix limit (s ++ B1 ++ concat mids ++ B2 ++ concat later)) as Hsuf.
  rewrite <- Hsnap in Hsuf.
  apply suffix_app_split in Hsuf as (p & r1 & -> & Hp & Hr1 & _).
  apply suffix_app_split in Hr1 as (b1 & r2 & -> & Hb1 & Hr2 & Hw1).
  pose proof Hr2 as Hr2'.
  apply suffix_app_split in Hr2' as (m & r3 & Hr2eq & Hm & Hr3 & _).
  apply suffix_app_split in Hr3 as (b2 & l & -> & Hb2 & Hl & Hw2).
  subst r2.
  exists p, b1, m, b2, l. repeat split; try done.
  - by destruct (suffix_app3_whole m b2 l _ _ _ Hm Hb2 Hl (Hw1 H)) as (? & ? & ?).
  - by destruct (suffix_app3_whole m b2 l _ _ _ Hm Hb2 Hl (Hw1 H)) as (? & ? & ?).
  - by destruct (suffix_app3_whole m b2 l _ _ _ Hm Hb2 Hl (Hw1 H)) as (? & ? & ?).
Qed.

(** ** The handlers *)

Section HandlerFacts.

Context {Payload BindError : Type}.
Variable bind : Payload -> BindError + Store.

Lemma serve_post (body : Payload) s :
  ServeHTTP bind (POST_webhook body) s
  = postWebhook bind body (withCORS (newContext (POST_webhook body))) s.
Proof. reflexivity. Qed.

Lemma serve_get (body : Payload) s :
  ServeHTTP bind (GET_iq_data body) s
  = getIQData (withCORS (newContext (GET_iq_data body))) s.
Proof. reflexivity. Qed.

Lemma postWebhook_store body c s :
  snd (postWebhook bind body c s)
  = match bind body with inl _ => s | inr newData => storeAppend s newData end.
Proof. unfold postWebhook. destruct (bind body); reflexivity. Qed.

(** C4. Malformed input: when the body of a [POST /webhook] does not bind
    to a slice of samples, the answer is status 400 with the body
    [{"error": "Invalid JSON format"}] and the buffer is as it was. *)
Theorem malformed_rejected (body : Payload) (e : BindError) (s : Store) :
  bind body = inl e ->
  exists c, ServeHTTP bind (POST_webhook body) s = (c, s)
    /\ Status c = StatusBadRequest
    /\ Sent c = BodyH {[ "error"%string := "Invalid JSON format"%string ]}.
Proof.
  intros Hbind. rewrite serve_post. unfold postWebhook. rewrite Hbind.
  eexists. split; [reflexivity|]. split; reflexivity.
Qed.

(** C5. A [POST /webhook] whose body binds to a batch appends the whole
    batch, trims the buffer to [maxDataPoints] and answers 200 with
    [{"status": "received"}]; a body that does not bind leaves the buffer
    as it was.  There is no third outcome: a request applies all of its
    batch or none of it. *)
Theorem webhook_all_or_nothing (body : Payload) (s : Store) :
  match bind body with
  | inr newData =>
      exists c, ServeHTTP bind (POST_webhook body) s
                = (c, Buffer.trim maxDataPoints (s ++ newData))
        /\ Status c = StatusOK
        /\ Sent c = BodyH {[ "status"%string := "received"%string ]}
  | inl _ => snd (ServeHTTP bind (POST_webhook body) s) = s
  end.
Proof.
  rewrite serve_post. unfold postWebhook.
  destruct (bind body) as [e|newData]; [reflexivity|].
  eexists. split; [reflexivity|]. split; reflexivity.
Qed.

(** C6. [GET /api/iq-data] answers 200 with the buffer as it stands,
    oldest sample first, and leaves the buffer alone; a second query with
    no append in between sends the same sequence. *)
Theorem query_snapshot (body1 body2 : Payload) (s : Store) :
  exists c1 c2,
    ServeHTTP bind (GET_iq_data body1) s = (c1, s)
    /\ serveAll bind [GET_iq_data body1; GET_iq_data body2] s = ([c1; c2], s)
    /\ Status c1 = StatusOK /\ Sent c1 = BodySamples s
    /\ Status c2 = StatusOK /\ Sent c2 = BodySamples s.
Proof.
  do 2 eexists. split; [apply serve_get|]. split.
  - reflexivity.
  - repeat split.
Qed.

(** C8. CORS preflight: an OPTIONS request to any path is answered by the
    middleware alone, whatever handler would come next: status 204, no
    body, the four CORS headers, the chain aborted and the buffer as it
    was. *)
Theorem options_preflight (path : string) (body : Payload) (s : Store)
        (next : HandlerFunc) :
  exists c,
    ServeHTTP bind (OPTIONS_at path body) s = (c, s)
    /\ corsMiddleware next (newContext (OPTIONS_at path body)) s = (c, s)
    /\ Status c = StatusNoContent /\ Sent c = NoBody /\ Aborted c = true
    /\ Header c !! "Access-Control-Allow-Origin"%string = Some ["*"%string]
    /\ Header c !! "Access-Control-Allow-Methods"%string
       = Some ["POST, GET, OPTIONS"%string]
    /\ Header c !! "Access-Control-Allow-Headers"%string
       = Some ["Content-Type, Authorization"%string]
    /\ Header c !! "Access-Control-Allow-Credentials"%string = Some ["true"%string]
    /\ Header c !! "Content-Type"%string = None.
Proof.
  eexists. split; [reflexivity|]. split; [reflexivity|].
  repeat split; vm_compute; reflexivity.
Qed.

End HandlerFacts.

Lemma malformed_rejected_witness :
  exists c, server (POST_webhook (Some (JObject [("not"%string, JString "an array")]))) (ramp 3)
            = (c, ramp 3)
    /\ Status c = StatusBadRequest
    /\ Sent c = BodyH {[ "error"%string := "Invalid JSON format"%string ]}.
Proof.
  apply (malformed_rejected bindJSON _ UnmarshalTypeError). reflexivity.
Defined.

(** ** The decoder *)

Lemma getField_setField_ne f g v d : f <> g -> getField f (setField g v d) = getField f d.
Proof. destruct f, g; simpl; congruence. Qed.

Lemma decodeMember_ok acc m :
  memberOK m = true -> snd (decodeMember acc m) = snd acc.
Proof.
  unfold memberOK, decodeMember. destruct (findField (fst m)); [|done].
  destruct (snd m); try done. intros ->. reflexivity.
Qed.

Lemma decodeMember_absent f acc m :
  findField (fst m) <> Some f ->
  getField f (fst (decodeMember acc m)) = getField f (fst acc).
Proof.
  unfold decodeMember. intros Hne.
  destruct (findField (fst m)) as [g|]; [|done].
  destruct (snd m); try done.
  destruct (fits v); [|done]. simpl.
  apply getField_setField_ne. congruence.
Qed.

Lemma decode_members_ok members : forall acc,
  forallb memberOK members = true ->
  snd (foldl decodeMember acc members) = snd acc.
Proof.
  induction members as [|m ms IH]; intros acc Hok; simpl in *; [done|].
  apply andb_prop in Hok as [Hm Hms].
  rewrite IH by done. by apply decodeMember_ok.
Qed.

Lemma decode_members_absent f members : forall acc,
  absent f members ->
  getField f (fst (foldl decodeMember acc members)) = getField f (fst acc).
Proof.
  induction members as [|m ms IH]; intros acc Habs; simpl; [done|].
  inversion Habs; subst.
  rewrite IH by done. by apply decodeMember_absent.
Qed.

Lemma bindJSON_scanned (v : JSONValue) :
  scannable v = true -> bindJSON (Some v) = decodeValue v.
Proof. intros Hv. unfold bindJSON. by rewrite Hv. Qed.

Lemma bind_objects_ok (objs : list (list (string * JSONValue))) :
  scannable (JArray (map JObject objs)) = true ->
  forallb (forallb memberOK) objs = true ->
  bindJSON (Some (JArray (map JObject objs)))
  = inr (map (fun ms => fst (decodeIQData (JObject ms))) objs).
Proof.
  intros Hdepth Hok. rewrite bindJSON_scanned by done.
  unfold decodeValue. rewrite !map_map.
  assert (Hall : forallb snd (map (fun ms => decodeIQData (JObject ms)) objs) = true).
  { clear Hdepth. induction objs as [|ms objs IH]; simpl in *; [done|].
    apply andb_prop in Hok as [Hms Hobjs].
    rewrite (decode_members_ok ms _ Hms). simpl. by apply IH. }
  rewrite Hall. reflexivity.
Qed.

(** The decoder on a few bodies: a key in another case, [null] for an
    element, a string where a number belongs, a body that is no array. *)
Example bind_folded_key :
  bindJSON (Some (JArray [JObject [("TIME"%string, JNumber 3%float)]; JNull]))
  = inr [mkIQData 3%float 0%float 0%float; IQData_zero].
Proof. reflexivity. Qed.

Example bind_wrong_type :
  bindJSON (Some (JArray [JObject [("time"%string, JString "x")]]))
  = inl UnmarshalTypeError.
Proof. reflexivity. Qed.

Example bind_null_body : bindJSON (Some JNull) = inr [].
Proof. reflexivity. Qed.

(** C10 (as stated): an object that lacks fields is not accepted whatever
    else it holds: [[{"time": "x"}]] lacks [real] and [imaginary] and is
    answered 400, because the field that is there has the wrong type. *)
Lemma typed_field_still_checked : ~ missing_fields_always_accepted.
Proof.
  intros Hclaim.
  specialize (Hclaim [[("time"%string, JString "x")]] []).
  assert (Hmiss : exists members f,
             members ∈ [[("time"%string, JString "x")]] /\ absent f members).
  { exists [("time"%string, JString "x")], FReal. split; [set_solver|].
    repeat constructor. vm_compute. discriminate. }
  specialize (Hclaim Hmiss). vm_compute in Hclaim. discriminate.
Qed.

(** C10 (amended). A body that is an array of objects, nested no deeper
    than the scanner allows and in which every member bound to [time],
    [real] or [imaginary] carries [null] or a number that fits, is accepted
    even when objects lack fields (the empty object included): the answer is
    200, one sample per object is appended, and every field no member binds
    to is 0.0. *)
Theorem missing_fields_default_to_zero
        (objs : list (list (string * JSONValue))) (s : Store) :
  scannable (JArray (map JObject objs)) = true ->
  forallb (forallb memberOK) objs = true ->
  exists c newData,
    server (POST_webhook (Some (JArray (map JObject objs)))) s
    = (c, storeAppend s newData)
    /\ Status c = StatusOK
    /\ Sent c = BodyH {[ "status"%string := "received"%string ]}
    /\ length newData = length objs
    /\ forall i members d f,
         objs !! i = Some members -> newData !! i = Some d ->
         absent f members -> getField f d = 0%float.
Proof.
  intros Hdepth Hok.
  exists (JSON StatusOK (BodyH {[ "status"%string := "received"%string ]})
               (withCORS (newContext (POST_webhook (Some (JArray (map JObject objs))))))).
  exists (map (fun ms => fst (decodeIQData (JObject ms))) objs).
  split.
  { unfold server. rewrite serve_post. unfold postWebhook.
    rewrite (bind_objects_ok objs Hdepth Hok). reflexivity. }
  split; [reflexivity|]. split; [reflexivity|]. split; [by rewrite length_map|].
  intros i members d f Hi Hd Habs.
  rewrite list_lookup_fmap, Hi in Hd. simpl in Hd. injection Hd as <-.
  rewrite (decode_members_absent f members _ Habs). by destruct f.
Qed.

Lemma missing_fields_default_to_zero_witness :
  exists c newData,
    server (POST_webhook (Some (JArray (map JObject
              [ [] ;
                [("time"%string, JNumber 1.5%float)] ;
                [("Real"%string, JNumber 2%float); ("note"%string, JString "x")] ]))))
           (ramp 2)
    = (c, storeAppend (ramp 2) newData)
    /\ Status c = StatusOK
    /\ Sent c = BodyH {[ "status"%string := "received"%string ]}
    /\ length newData = 3
    /\ forall i members d f,
         [ [] ;
           [("time"%string, JNumber 1.5%float)] ;
           [("Real"%string, JNumber 2%float); ("note"%string, JString "x")] ] !! i
         = Some members ->
         newData !! i = Some d ->
         absent f members -> getField f d = 0%float.
Proof.
  apply (missing_fields_default_to_zero
           [ [] ;
             [("time"%string, JNumber 1.5%float)] ;
             [("Real"%string, JNumber 2%float); ("note"%string, JString "x")] ]
           (ramp 2)).
  - vm_compute. reflexivity.
  - vm_compute. reflexivity.
Defined.

(** ** The generator *)

Section FakerFacts.

Variables Sin Cos : float -> float.

(** The loop fills positions [i], [i+1], ... and leaves the ones before. *)
Lemma fillFrom_spec n : forall i startTime (data : Store),
  length data = i + n ->
  fillFrom Sin Cos n i startTime data
  = take i data ++ map (sampleAt Sin Cos startTime) (seq i n).
Proof.
  induction n as [|n IH]; intros i startTime data Hlen; simpl.
  - rewrite app_nil_r, take_ge by lia. reflexivity.
  - rewrite IH by (rewrite length_insert; lia).
    assert (Hi : i < length data) by lia.
    rewrite (take_S_r (<[i:=sampleAt Sin Cos startTime i]> data) i
               (sampleAt Sin Cos startTime i))
      by (by apply list_lookup_insert_eq).
    rewrite take_insert_ge by lia. by rewrite <- app_assoc.
Qed.

Lemma generateIQData_spec (count : Z) (startTime : float) :
  (0 <= count)%Z ->
  generateIQData Sin Cos count startTime
  = Some (map (sampleAt Sin Cos startTime) (seq 0 (Z.to_nat count))).
Proof.
  intros Hc. unfold generateIQData.
  destruct (Z.ltb_spec count 0) as [?|_]; [lia|].
  rewrite fillFrom_spec by (rewrite length_replicate; lia).
  reflexivity.
Qed.

Lemma generateIQData_times (count : Z) (startTime : float) data :
  generateIQData Sin Cos count startTime = Some data ->
  map Time data = batchTimes (Z.to_nat count) startTime.
Proof.
  unfold generateIQData. destruct (Z.ltb_spec count 0) as [?|Hc]; [done|].
  intros [= <-]. rewrite fillFrom_spec by (rewrite length_replicate; lia).
  simpl. rewrite map_map. reflexivity.
Qed.

Lemma mainBatches_times turns : forall (dataPoints : Z) (currentTime : float),
  (0 <= dataPoints)%Z ->
  exists batches,
    mainBatches Sin Cos turns dataPoints currentTime = Some batches
    /\ length batches = turns
    /\ timesOf batches = mainTimes turns dataPoints currentTime.
Proof.
  induction turns as [|n IH]; intros dataPoints currentTime Hp; simpl.
  - by exists [].
  - unfold mainTurn. rewrite generateIQData_spec by done.
    destruct (IH dataPoints (currentTime + float64_of_int dataPoints * tenth)%float Hp)
      as (rest & -> & Hlen & Htimes).
    eexists. split; [reflexivity|]. split; [simpl; lia|].
    unfold timesOf in *. simpl. rewrite map_app, Htimes, map_map. reflexivity.
Qed.

End FakerFacts.

(** ** Binary64 arithmetic followed in [Z] *)

Module Binary64Facts.
Import Binary64.
Local Open Scope Z_scope.

Lemma digits_bounds (m : positive) :
  2 ^ (Zpos (digits2_pos m) - 1) <= Zpos m < 2 ^ Zpos (digits2_pos m).
Proof.
  induction m as [m IH|m IH|]; simpl digits2_pos.
  - rewrite Pos2Z.inj_succ. replace (Z.succ (Zpos (digits2_pos m)) - 1)
      with (Z.succ (Zpos (digits2_pos m) - 1)) by lia.
    rewrite !Z.pow_succ_r by lia. lia.
  - rewrite Pos2Z.inj_succ. replace (Z.succ (Zpos (digits2_pos m)) - 1)
      with (Z.succ (Zpos (digits2_pos m) - 1)) by lia.
    rewrite !Z.pow_succ_r by lia. lia.
  - simpl. lia.
Qed.

Lemma shr_1_spec (m : Z) (r s : bool) :
  0 <= m ->
  shr_1 (Build_shr_record m r s) = Build_shr_record (Z.div2 m) (Z.odd m) (r || s).
Proof.
  intros Hm. destruct m as [|[p|p|]|p]; try reflexivity. lia.
Qed.

Lemma iter_pos_nat {A} (f : A -> A) (p : positive) : forall x,
  SpecFloat.iter_pos f p x = Nat.iter (Pos.to_nat p) f x.
Proof.
  induction p as [p IH|p IH|]; intros x; simpl SpecFloat.iter_pos.
  - rewrite !IH, <- Nat.iter_succ_r, <- Nat.iter_add.
    f_equal. rewrite Pos2Nat.inj_xI. lia.
  - rewrite !IH, <- Nat.iter_add. f_equal. rewrite Pos2Nat.inj_xO. lia.
  - reflexivity.
Qed.

(** After [k+1] steps the record holds the quotient, the last bit shifted
    out and whether anything below it was set. *)
Lemma shr_iter (M : Z) (k : nat) :
  0 <= M ->
  Nat.iter (S k) shr_1 (Build_shr_record M false false)
  = Build_shr_record (M / 2 ^ (Z.of_nat k + 1))
                     (Z.odd (M / 2 ^ Z.of_nat k))
                     (negb (M mod 2 ^ Z.of_nat k =? 0)).
Proof.
  intros HM. induction k as [|k IH].
  - change (Nat.iter 1 shr_1 ?x) with (shr_1 x). rewrite shr_1_spec by done. simpl Z.of_nat.
    rewrite Z.pow_0_r, Z.div_1_r, Z.mod_1_r, Z.div2_div. reflexivity.
  - change (Nat.iter (S (S k)) shr_1 ?x) with (shr_1 (Nat.iter (S k) shr_1 x)).
    rewrite IH, shr_1_spec by (apply Z.div_pos; lia).
    assert (Hp : 0 < 2 ^ Z.of_nat k) by (apply Z.pow_pos_nonneg; lia).
    replace (Z.of_nat (S k)) with (Z.of_nat k + 1) by lia.
    rewrite Z.div2_div, Z.div_div by lia.
    replace (2 ^ (Z.of_nat k + 1) * 2) with (2 ^ (Z.of_nat k + 1 + 1))
      by (rewrite (Z.pow_add_r 2 (Z.of_nat k + 1) 1) by lia; reflexivity).
    f_equal.
    rewrite (Z.pow_add_r 2 (Z.of_nat k) 1) by lia. change (2 ^ 1) with 2.
    pose proof (Z.div_mod M (2 ^ Z.of_nat k) ltac:(lia)) as Hdm.
    pose proof (Z.mod_pos_bound M (2 ^ Z.of_nat k) Hp) as Hb.
    set (q := M / 2 ^ Z.of_nat k) in *. set (b := M mod 2 ^ Z.of_nat k) in *.
    set (h := 2 ^ Z.of_nat k) in *.
    rewrite Z.rem_mul_r by lia. fold b q.
    rewrite (Zmod_odd q). destruct (Z.odd q); simpl.
    + symmetry. apply negb_true_iff, Z.eqb_neq. lia.
    + rewrite Z.mul_0_r, Z.add_0_r. reflexivity.
Qed.

(** Rounding to nearest even after the shift lands within half a unit. *)
Lemma round_after_shift (M : Z) (k : nat) :
  0 <= M ->
  let mrs := Nat.iter (S k) shr_1 (Build_shr_record M false false) in
  let m1 := round_nearest_even (shr_m mrs) (loc_of_shr_record mrs) in
  M / 2 ^ (Z.of_nat k + 1) <= m1 <= M / 2 ^ (Z.of_nat k + 1) + 1
  /\ 2 * Z.abs (m1 * 2 ^ (Z.of_nat k + 1) - M) <= 2 ^ (Z.of_nat k + 1).
Proof.
  intros HM mrs m1. unfold m1, mrs. rewrite shr_iter by done. clear mrs m1.
  assert (Hp : 0 < 2 ^ Z.of_nat k) by (apply Z.pow_pos_nonneg; lia).
  rewrite (Z.pow_add_r 2 (Z.of_nat k) 1) by lia. change (2 ^ 1) with 2.
  rewrite <- Z.div_div by lia.
  pose proof (Z.div_mod M (2 ^ Z.of_nat k) ltac:(lia)) as Hdm.
  pose proof (Z.mod_pos_bound M (2 ^ Z.of_nat k) Hp) as Hb.
  set (a := M / 2 ^ Z.of_nat k) in *. set (b := M mod 2 ^ Z.of_nat k) in *.
  set (h := 2 ^ Z.of_nat k) in *.
  pose proof (Z.div_mod a 2 ltac:(lia)) as Ha.
  rewrite (Zmod_odd a) in Ha.
  set (q := a / 2) in *.
  assert (Hqh : M = 2 * (q * h) + (if Z.odd a then h else 0) + b)
    by (destruct (Z.odd a); nia).
  unfold loc_of_shr_record, round_nearest_even. simpl shr_m.
  destruct (Z.odd a); destruct (Z.eqb_spec b 0) as [Hb0|Hb0]; simpl.
  - destruct (Z.even q); nia.
  - nia.
  - nia.
  - nia.
Qed.


Lemma fexp64 (e : Z) : fexp prec emax e = Z.max (e - 53) (-1074).
Proof. reflexivity. Qed.

Lemma shr_fexp_noshift (m e : Z) :
  fexp prec emax (Zdigits2 m + e) <= e ->
  shr_fexp prec emax m e loc_Exact = (Build_shr_record m false false, e).
Proof.
  intros H. unfold shr_fexp, shr.
  destruct (fexp prec emax (Zdigits2 m + e) - e) eqn:Hn; try reflexivity. lia.
Qed.

Lemma shr_fexp_shift (m e : Z) :
  e < fexp prec emax (Zdigits2 m + e) ->
  exists k : nat,
    Z.of_nat k + 1 = fexp prec emax (Zdigits2 m + e) - e
    /\ shr_fexp prec emax m e loc_Exact
       = (Nat.iter (S k) shr_1 (Build_shr_record m false false),
          fexp prec emax (Zdigits2 m + e)).
Proof.
  intros H. unfold shr_fexp, shr.
  destruct (fexp prec emax (Zdigits2 m + e) - e) as [|p|p] eqn:Hn; try lia.
  exists (Nat.pred (Pos.to_nat p)).
  assert (Hp : S (Nat.pred (Pos.to_nat p)) = Pos.to_nat p) by lia.
  split; [lia|]. rewrite iter_pos_nat, Hp. simpl shr_record_of_loc.
  f_equal. lia.
Qed.

Lemma digits_le (m : positive) (k : Z) :
  Zpos m < 2 ^ k -> Zpos (digits2_pos m) <= k.
Proof.
  intros H. pose proof (digits_bounds m) as [Hl _].
  destruct (Z_le_gt_dec (Zpos (digits2_pos m)) k) as [|Hgt]; [done|].
  assert (2 ^ k <= 2 ^ (Zpos (digits2_pos m) - 1)).
  { destruct (Z_lt_le_dec k 0).
    - rewrite (Z.pow_neg_r 2 k) by lia. apply Z.pow_nonneg. lia.
    - apply Z.pow_le_mono_r; lia. }
  lia.
Qed.

Lemma scale_error (m1 M N P : Z) :
  0 < P -> 2 * Z.abs (m1 * N - M) <= N ->
  2 * Z.abs (m1 * (N * P) - M * P) <= N * P.
Proof.
  intros HP H. replace (m1 * (N * P) - M * P) with ((m1 * N - M) * P) by ring.
  rewrite Z.abs_mul, (Z.abs_eq P) by lia. nia.
Qed.

Lemma round_aux_spec (s : bool) (M : positive) (ex : Z) :
  - K <= ex -> Zpos (digits2_pos M) + ex <= 972 ->
  let r := binary_round_aux prec emax s (Zpos M) ex loc_Exact in
  let E := fexp prec emax (Zpos (digits2_pos M) + ex) in
  exists V, finite r = true /\ val r = cond_Zopp s V /\ 0 <= V /\
    (E <= ex -> V = sc (Zpos M) ex) /\
    (ex < E -> 2 * Z.abs (V - sc (Zpos M) ex) <= 2 ^ (E + K)).
Proof.
  intros HK Hd r E. unfold r, binary_round_aux.
  assert (HdM := digits_bounds M).
  destruct (Z_le_gt_dec E ex) as [Hle|Hgt].
  - (* no shift: the mantissa is kept *)
    rewrite shr_fexp_noshift by exact Hle. simpl shr_m. simpl loc_of_shr_record.
    simpl round_nearest_even. rewrite shr_fexp_noshift by exact Hle. simpl shr_m.
    assert (Hex : (ex <=? emax - prec) = true).
    { apply Z.leb_le. change (emax - prec) with 971. lia. }
    rewrite Hex. exists (sc (Zpos M) ex). repeat split; try done; try lia.
    unfold sc. apply Z.mul_nonneg_nonneg; [lia|]. apply Z.pow_nonneg. lia.
  - (* the mantissa is shifted and rounded *)
    destruct (shr_fexp_shift (Zpos M) ex) as (k & Hk & ->); [apply Z.gt_lt; exact Hgt|].
    simpl Zdigits2 in Hk. fold E in Hk. simpl Zdigits2. fold E.
    pose proof (round_after_shift (Zpos M) k ltac:(lia)) as [Hq Herr].
    cbv zeta in Hq, Herr.
    set (m1 := round_nearest_even _ _) in *.
    rewrite Hk in Hq, Herr.
    assert (HE : E = Z.max (Zpos (digits2_pos M) + ex - 53) (-1074))
      by (unfold E; apply fexp64).
    assert (Hn : 0 < E - ex) by lia.
    assert (HN : 0 < 2 ^ (E - ex)) by (apply Z.pow_pos_nonneg; lia).
    assert (HP : 0 < 2 ^ (ex + K)) by (apply Z.pow_pos_nonneg; lia).
    assert (HNP : 2 ^ (E + K) = 2 ^ (E - ex) * 2 ^ (ex + K)).
    { rewrite <- Z.pow_add_r by lia. f_equal. lia. }
    (* the quotient has at most 53 bits *)
    assert (Hq53 : Zpos M / 2 ^ (E - ex) < 2 ^ 53).
    { apply Z.div_lt_upper_bound; [lia|].
      rewrite <- Z.pow_add_r by lia.
      eapply Z.lt_le_trans; [apply HdM|]. apply Z.pow_le_mono_r; lia. }
    assert (Hq0 : 0 <= Zpos M / 2 ^ (E - ex)) by (apply Z.div_pos; lia).
    assert (Hm1 : 0 <= m1 <= 2 ^ 53) by lia.
    assert (Hbound := scale_error m1 (Zpos M) _ _ HP Herr).
    rewrite <- HNP in Hbound.
    destruct m1 as [|m'|m'] eqn:Hm1eq; [| |lia].
    + (* rounded to zero *)
      rewrite shr_fexp_noshift by (simpl Zdigits2; rewrite fexp64; lia).
      simpl shr_m. exists 0.
      split; [done|]. split; [by destruct s|]. split; [lia|]. split; [lia|].
      intros _. unfold sc. rewrite Z.mul_0_l in Hbound. exact Hbound.
    + destruct (Z_lt_le_dec (Zpos m') (2 ^ 53)) as [Hlt|Hge].
      * pose proof (digits_le m' 53 Hlt) as Hd'.
        rewrite shr_fexp_noshift by (simpl Zdigits2; rewrite fexp64; lia).
        simpl shr_m.
        assert (HEx : (E <=? emax - prec) = true).
        { apply Z.leb_le. change (emax - prec) with 971. lia. }
        rewrite HEx. exists (sc (Zpos m') E).
        split; [done|]. split; [done|]. split; [|split; [lia|]].
        -- unfold sc. apply Z.mul_nonneg_nonneg; [lia|]. apply Z.pow_nonneg. lia.
        -- intros _. unfold sc. exact Hbound.
      * assert (Hm' : m' = 9007199254740992%positive)
          by (change (2 ^ 53) with 9007199254740992 in *; lia).
        subst m'.
        destruct (shr_fexp_shift 9007199254740992 E) as (k2 & Hk2 & ->).
        { change (Zdigits2 9007199254740992) with 54. rewrite fexp64. lia. }
        assert (k2 = 0%nat).
        { change (Zdigits2 9007199254740992) with 54 in Hk2.
          rewrite fexp64 in Hk2. lia. }
        subst k2. simpl Nat.iter. simpl shr_m.
        change (Zdigits2 9007199254740992) with 54. rewrite fexp64.
        replace (Z.max (54 + E - 53) (-1074)) with (E + 1) by lia.
        assert (HEx : (E + 1 <=? emax - prec) = true).
        { apply Z.leb_le. change (emax - prec) with 971. lia. }
        rewrite HEx. exists (sc 9007199254740992 E).
        assert (Hsame : sc 4503599627370496 (E + 1) = sc 9007199254740992 E).
        { unfold sc. replace (E + 1 + K) with (E + K + 1) by lia.
          rewrite Z.pow_add_r by lia. change (2 ^ 1) with 2. lia. }
        split; [done|]. split; [simpl val; by rewrite Hsame|].
        split; [|split; [lia|]].
        -- unfold sc. apply Z.mul_nonneg_nonneg; [lia|]. apply Z.pow_nonneg. lia.
        -- intros _. unfold sc. exact Hbound.
Qed.

Lemma pow2_pos (e : Z) : 0 <= e -> 0 < 2 ^ e.
Proof. intros. apply Z.pow_pos_nonneg; lia. Qed.

Lemma fexp_mono (a b : Z) : a <= b -> fexp prec emax a <= fexp prec emax b.
Proof. rewrite !fexp64. lia. Qed.

Lemma fexp_ge (a : Z) : -1074 <= fexp prec emax a.
Proof. rewrite fexp64. lia. Qed.

(** A mantissa whose scaled value is below [2^B] has its top bit below
    [B]. *)
Lemma digits_of_magnitude (M : positive) (ex B : Z) :
  - K <= ex -> sc (Zpos M) ex < 2 ^ (B + K) ->
  Zpos (digits2_pos M) + ex <= B.
Proof.
  intros HK Hlt. pose proof (digits_bounds M) as [Hl _].
  assert (Hd : 1 <= Zpos (digits2_pos M)) by lia.
  assert (H1 : 2 ^ (Zpos (digits2_pos M) - 1 + (ex + K)) < 2 ^ (B + K)).
  { rewrite Z.pow_add_r by lia. unfold sc in Hlt.
    eapply Z.le_lt_trans; [|exact Hlt].
    apply Z.mul_le_mono_nonneg_r; [|exact Hl]. apply Z.pow_nonneg. lia. }
  destruct (Z_le_gt_dec (Zpos (digits2_pos M) + ex) B) as [|Hgt]; [done|].
  assert (2 ^ (B + K) <= 2 ^ (Zpos (digits2_pos M) - 1 + (ex + K))).
  { destruct (Z_lt_le_dec (B + K) 0).
    - rewrite (Z.pow_neg_r 2 (B + K)) by lia. apply Z.pow_nonneg. lia.
    - apply Z.pow_le_mono_r; lia. }
  lia.
Qed.

Lemma round_aux_bound (s : bool) (M : positive) (ex B : Z) :
  - K <= ex -> sc (Zpos M) ex < 2 ^ (B + K) -> B <= 972 ->
  let r := binary_round_aux prec emax s (Zpos M) ex loc_Exact in
  exists V, finite r = true /\ val r = cond_Zopp s V /\ 0 <= V /\
    2 * Z.abs (V - sc (Zpos M) ex) <= 2 ^ (fexp prec emax B + K) /\
    (fexp prec emax (Zpos (digits2_pos M) + ex) <= ex -> V = sc (Zpos M) ex).
Proof.
  intros HK Hlt HB r.
  pose proof (digits_of_magnitude M ex B HK Hlt) as Hd.
  destruct (round_aux_spec s M ex HK ltac:(lia)) as (V & Hfin & Hval & HV & Hex & Herr).
  exists V. split; [exact Hfin|]. split; [exact Hval|]. split; [exact HV|].
  split; [|exact Hex].
  pose proof (fexp_ge B). pose proof (fexp_mono _ _ Hd) as Hmono.
  assert (0 < 2 ^ (fexp prec emax B + K)) by (apply pow2_pos; unfold K; lia).
  destruct (Z_le_gt_dec (fexp prec emax (Zpos (digits2_pos M) + ex)) ex) as [Hle|Hgt].
  - rewrite (Hex Hle), Z.sub_diag. simpl. lia.
  - etransitivity; [apply Herr; lia|].
    apply Z.pow_le_mono_r; [lia|]. lia.
Qed.

Lemma iter_xO (d m : positive) : Zpos (Pos.iter xO m d) = Zpos m * 2 ^ Zpos d.
Proof.
  induction d as [|d IH] using Pos.peano_ind.
  - simpl. lia.
  - rewrite Pos.iter_succ, Pos2Z.inj_xO, IH, Pos2Z.inj_succ, Z.pow_succ_r by lia. lia.
Qed.

Lemma shl_align_spec (mx : positive) (ex ex' : Z) :
  let '(mz, ez) := shl_align mx ex ex' in
  ez = Z.min ex ex' /\ Zpos mz = Zpos mx * 2 ^ (ex - ez).
Proof.
  unfold shl_align. destruct (ex' - ex) as [|p|p] eqn:Hd.
  - split; [lia|]. rewrite Z.sub_diag. simpl. lia.
  - split; [lia|]. rewrite Z.sub_diag. simpl. lia.
  - split; [lia|]. rewrite iter_xO. f_equal. f_equal. lia.
Qed.

Lemma sc_shift (m e e' : Z) :
  - K <= e' -> e' <= e -> sc (m * 2 ^ (e - e')) e' = sc m e.
Proof.
  intros HK Hle. unfold sc. rewrite <- Z.mul_assoc, <- Z.pow_add_r by lia.
  f_equal. f_equal. lia.
Qed.

Lemma binary_round_bound (s : bool) (m : positive) (ez B : Z) :
  -1074 <= ez -> sc (Zpos m) ez < 2 ^ (B + K) -> B <= 972 ->
  let r := binary_round prec emax s m ez in
  exists V, finite r = true /\ val r = cond_Zopp s V /\ 0 <= V /\
    2 * Z.abs (V - sc (Zpos m) ez) <= 2 ^ (fexp prec emax B + K) /\
    (Zpos m < 2 ^ 53 -> V = sc (Zpos m) ez).
Proof.
  intros Hez Hlt HB r. unfold r, binary_round.
  pose proof (shl_align_spec m ez (fexp prec emax (Zpos (digits2_pos m) + ez))) as Hal.
  destruct (shl_align _ _ _) as [mz ez'] eqn:Heq. destruct Hal as [Hez' Hmz].
  pose proof (fexp_ge (Zpos (digits2_pos m) + ez)) as Hfe.
  assert (HK' : - K <= ez') by (unfold K; lia).
  assert (Hsc : sc (Zpos mz) ez' = sc (Zpos m) ez).
  { rewrite Hmz. apply sc_shift; lia. }
  destruct (round_aux_bound s mz ez' B HK' ltac:(by rewrite Hsc) HB)
    as (V & Hfin & Hval & HV & Herr & Hex).
  exists V. rewrite Hsc in Herr, Hex. repeat split; try done.
  intros H53. apply Hex.
  (* the aligned mantissa has no more bits than the exponent leaves room for *)
  pose proof (digits_bounds m) as [_ Hu].
  assert (Hdz : Zpos (digits2_pos mz) <= Zpos (digits2_pos m) + (ez - ez')).
  { apply digits_le. rewrite Hmz, Z.pow_add_r by lia.
    apply Z.mul_lt_mono_pos_r; [apply pow2_pos; lia | exact Hu]. }
  pose proof (digits_le m 53 H53) as Hd53.
  rewrite fexp64 in *. lia.
Qed.

Lemma normalize_bound (S ez B : Z) :
  -1074 <= ez -> Z.abs S * 2 ^ (ez + K) < 2 ^ (B + K) -> B <= 972 ->
  let r := binary_normalize prec emax S ez false in
  finite r = true
  /\ 2 * Z.abs (val r - S * 2 ^ (ez + K)) <= 2 ^ (fexp prec emax B + K)
  /\ (Z.abs S < 2 ^ 53 -> val r = S * 2 ^ (ez + K)).
Proof.
  intros Hez Hlt HB r. unfold r, binary_normalize.
  pose proof (fexp_ge B).
  assert (0 < 2 ^ (fexp prec emax B + K)) by (apply pow2_pos; unfold K; lia).
  destruct S as [|m|m].
  - simpl. split; [done|]. split; [lia|done].
  - destruct (binary_round_bound false m ez B Hez Hlt HB) as (V & Hfin & Hval & HV & Herr & Hex).
    simpl cond_Zopp in Hval. rewrite Hval. unfold sc in *.
    split; [done|]. split; [exact Herr|exact Hex].
  - destruct (binary_round_bound true m ez B Hez Hlt HB) as (V & Hfin & Hval & HV & Herr & Hex).
    simpl cond_Zopp in Hval. rewrite Hval. unfold sc in *.
    change (Z.abs (Zneg m)) with (Zpos m).
    replace (Zneg m * 2 ^ (ez + K)) with (- (Zpos m * 2 ^ (ez + K))) by lia.
    split; [done|]. split.
    + replace (- V - - (Zpos m * 2 ^ (ez + K))) with (- (V - Zpos m * 2 ^ (ez + K))) by lia.
      rewrite Z.abs_opp. exact Herr.
    + intros H53. rewrite (Hex H53). reflexivity.
Qed.

Lemma valid_finite (s : bool) (m : positive) (e : Z) :
  valid_binary (S754_finite s m e) = true ->
  -1074 <= e <= 971
  /\ Zpos (digits2_pos m) <= 53
  /\ (-1074 < e -> Zpos (digits2_pos m) = 53).
Proof.
  unfold SpecFloat.valid_binary, bounded, canonical_mantissa.
  intros [Hc He]%andb_prop. apply Z.eqb_eq in Hc. apply Z.leb_le in He.
  rewrite fexp64 in Hc. change (emax - prec) with 971 in He. lia.
Qed.

Lemma cond_Zopp_mul (s : bool) (a b : Z) : cond_Zopp s a * b = cond_Zopp s (a * b).
Proof. destruct s; simpl; lia. Qed.

Lemma abs_cond_Zopp (s : bool) (a : Z) : Z.abs (cond_Zopp s a) = Z.abs a.
Proof. destruct s; simpl; lia. Qed.

Lemma SFadd_bound (x y : spec_float) (B : Z) :
  finite x = true -> finite y = true ->
  valid_binary x = true -> valid_binary y = true ->
  Z.abs (val x + val y) < 2 ^ (B + K) -> B <= 972 ->
  finite (SFadd prec emax x y) = true
  /\ 2 * Z.abs (val (SFadd prec emax x y) - (val x + val y))
     <= 2 ^ (fexp prec emax B + K).
Proof.
  intros Hfx Hfy Hvx Hvy Hlt HB.
  pose proof (fexp_ge B).
  assert (Hpos : 0 < 2 ^ (fexp prec emax B + K)) by (apply pow2_pos; unfold K; lia).
  destruct x as [sx|sx| |sx mx ex], y as [sy|sy| |sy my ey]; try discriminate.
  - split; [by destruct sx, sy|]. destruct sx, sy; simpl; lia.
  - simpl SFadd. split; [done|]. simpl val.
    replace (cond_Zopp sy (sc (Zpos my) ey) - (0 + cond_Zopp sy (sc (Zpos my) ey)))
      with 0 by lia. simpl. lia.
  - simpl SFadd. split; [done|]. simpl val.
    replace (cond_Zopp sx (sc (Zpos mx) ex) - (cond_Zopp sx (sc (Zpos mx) ex) + 0))
      with 0 by lia. simpl. lia.
  - destruct (valid_finite _ _ _ Hvx) as (Hex & _), (valid_finite _ _ _ Hvy) as (Hey & _).
    unfold SFadd. set (ez := Z.min ex ey).
    pose proof (shl_align_spec mx ex ez) as Hax.
    pose proof (shl_align_spec my ey ez) as Hay.
    destruct (shl_align mx ex ez) as [mx' ex'], (shl_align my ey ez) as [my' ey'].
    destruct Hax as [Hex' Hmx'], Hay as [Hey' Hmy']. simpl fst.
    assert (Hex'' : ex' = ez) by lia. assert (Hey'' : ey' = ez) by lia.
    rewrite Hex'' in Hmx'. rewrite Hey'' in Hmy'. clear Hex' Hey' Hex'' Hey''.
    assert (Hsum : (cond_Zopp sx (Zpos mx') + cond_Zopp sy (Zpos my')) * 2 ^ (ez + K)
                   = val (S754_finite sx mx ex) + val (S754_finite sy my ey)).
    { assert (Hx : Zpos mx' * 2 ^ (ez + K) = sc (Zpos mx) ex).
      { rewrite Hmx'. apply (sc_shift (Zpos mx) ex ez); unfold K; lia. }
      assert (Hy : Zpos my' * 2 ^ (ez + K) = sc (Zpos my) ey).
      { rewrite Hmy'. apply (sc_shift (Zpos my) ey ez); unfold K; lia. }
      simpl val. rewrite Z.mul_add_distr_r, !cond_Zopp_mul, Hx, Hy. reflexivity. }
    destruct (normalize_bound (cond_Zopp sx (Zpos mx') + cond_Zopp sy (Zpos my')) ez B)
      as (Hfin & Herr & _); [lia| |exact HB|].
    { rewrite <- (Z.abs_eq (2 ^ (ez + K))) by (apply Z.pow_nonneg; lia).
      rewrite <- Z.abs_mul, Hsum. exact Hlt. }
    rewrite Hsum in Herr. split; [exact Hfin|exact Herr].
Qed.

Lemma SFmul_bound (x y : spec_float) (B : Z) :
  finite x = true -> finite y = true ->
  valid_binary x = true -> valid_binary y = true ->
  Z.abs (val x * val y) < 2 ^ (B + K + K) -> - K <= B <= 972 ->
  finite (SFmul prec emax x y) = true
  /\ 2 * Z.abs (val (SFmul prec emax x y) * 2 ^ K - val x * val y)
     <= 2 ^ (fexp prec emax B + K + K).
Proof.
  intros Hfx Hfy Hvx Hvy Hlt HB.
  pose proof (fexp_ge B).
  assert (Hpos : 0 < 2 ^ (fexp prec emax B + K + K)) by (apply pow2_pos; unfold K; lia).
  destruct x as [sx|sx| |sx mx ex], y as [sy|sy| |sy my ey]; try discriminate;
    try (split; [done|]; simpl; rewrite ?Z.mul_0_r; simpl; lia).
  destruct (valid_finite _ _ _ Hvx) as (Hex & _), (valid_finite _ _ _ Hvy) as (Hey & _).
  unfold SFmul.
  assert (HK2 : 0 < 2 ^ K) by (apply pow2_pos; unfold K; lia).
  assert (Hprod : sc (Zpos (mx * my)) (ex + ey) * 2 ^ K
                  = sc (Zpos mx) ex * sc (Zpos my) ey).
  { unfold sc. rewrite Pos2Z.inj_mul.
    replace (ex + ey + K) with ((ex + K) + ey) by lia.
    assert (Hsplit : 2 ^ (ex + K + ey) * 2 ^ K = 2 ^ (ex + K) * 2 ^ (ey + K)).
    { assert (HK0 : K = 2200) by reflexivity.
      rewrite <- (Z.pow_add_r 2 (ex + K + ey) K) by lia.
      rewrite <- (Z.pow_add_r 2 (ex + K) (ey + K)) by lia.
      f_equal. lia. }
    transitivity (Zpos mx * Zpos my * (2 ^ (ex + K + ey) * 2 ^ K)); [ring|].
    rewrite Hsplit. ring. }
  assert (Habs : Z.abs (val (S754_finite sx mx ex) * val (S754_finite sy my ey))
                 = sc (Zpos mx) ex * sc (Zpos my) ey).
  { simpl val. rewrite Z.abs_mul, !abs_cond_Zopp, <- Z.abs_mul. apply Z.abs_eq.
    unfold sc. apply Z.mul_nonneg_nonneg; apply Z.mul_nonneg_nonneg;
      try lia; apply Z.pow_nonneg; lia. }
  destruct (round_aux_bound (xorb sx sy) (mx * my) (ex + ey) B)
    as (V & Hfin & Hval & HV & Herr & _); [unfold K; lia| |lia|].
  { apply (Z.mul_lt_mono_pos_r (2 ^ K)); [exact HK2|].
    rewrite Hprod, <- Habs, <- Z.pow_add_r by (unfold K in *; lia). exact Hlt. }
  split; [exact Hfin|]. rewrite Hval.
  assert (Hsign : val (S754_finite sx mx ex) * val (S754_finite sy my ey)
                  = cond_Zopp (xorb sx sy) (sc (Zpos (mx * my)) (ex + ey) * 2 ^ K)).
  { rewrite Hprod. simpl val. destruct sx, sy; simpl; lia. }
  rewrite Hsign, cond_Zopp_mul.
  assert (Hd : cond_Zopp (xorb sx sy) (V * 2 ^ K)
               - cond_Zopp (xorb sx sy) (sc (Zpos (mx * my)) (ex + ey) * 2 ^ K)
               = cond_Zopp (xorb sx sy) ((V - sc (Zpos (mx * my)) (ex + ey)) * 2 ^ K))
    by (destruct (xorb sx sy); simpl; lia).
  rewrite Hd, abs_cond_Zopp, Z.abs_mul, (Z.abs_eq (2 ^ K)) by lia.
  rewrite (Z.pow_add_r 2 (fexp prec emax B + K) K) by (unfold K; lia).
  rewrite Z.mul_assoc. apply Z.mul_le_mono_nonneg_r; [lia|exact Herr].
Qed.

Lemma sc_positive (m : positive) (e : Z) : - K <= e -> 0 < sc (Zpos m) e.
Proof. intros. unfold sc. apply Z.mul_pos_pos; [lia|]. apply pow2_pos. lia. Qed.

(** Two canonical mantissas with different exponents are ordered as the
    exponents are. *)
Lemma canonical_lt (s1 s2 : bool) (m1 m2 : positive) (e1 e2 : Z) :
  valid_binary (S754_finite s1 m1 e1) = true ->
  valid_binary (S754_finite s2 m2 e2) = true ->
  e1 < e2 -> sc (Zpos m1) e1 < sc (Zpos m2) e2.
Proof.
  intros H1 H2 Hlt.
  destruct (valid_finite _ _ _ H1) as (He1 & Hd1 & _).
  destruct (valid_finite _ _ _ H2) as (He2 & _ & Hd2).
  specialize (Hd2 ltac:(lia)).
  pose proof (digits_bounds m1) as [_ Hu]. pose proof (digits_bounds m2) as [Hl _].
  rewrite Hd2 in Hl. change (2 ^ (53 - 1)) with (2 ^ 52) in Hl.
  assert (Hm1 : Zpos m1 < 2 ^ 53).
  { eapply Z.lt_le_trans; [exact Hu|]. apply Z.pow_le_mono_r; lia. }
  assert (HK0 : K = 2200) by reflexivity.
  unfold sc.
  apply Z.lt_le_trans with (2 ^ 53 * 2 ^ (e1 + K)).
  { apply Z.mul_lt_mono_pos_r; [apply pow2_pos; lia|exact Hm1]. }
  apply Z.le_trans with (2 ^ 52 * 2 ^ (e2 + K)).
  { rewrite <- !Z.pow_add_r by lia. apply Z.pow_le_mono_r; lia. }
  apply Z.mul_le_mono_nonneg_r; [apply Z.pow_nonneg; lia|exact Hl].
Qed.

Lemma canonical_compare (s1 s2 : bool) (m1 m2 : positive) (e1 e2 : Z) :
  valid_binary (S754_finite s1 m1 e1) = true ->
  valid_binary (S754_finite s2 m2 e2) = true ->
  (sc (Zpos m1) e1 ?= sc (Zpos m2) e2)
  = match e1 ?= e2 with
    | Lt => Lt
    | Gt => Gt
    | Eq => Pos.compare_cont Eq m1 m2
    end.
Proof.
  intros H1 H2. destruct (Z.compare_spec e1 e2) as [Heq|Hlt|Hgt].
  - subst e2. destruct (valid_finite _ _ _ H1) as (He1 & _).
    unfold sc. rewrite <- Zmult_compare_compat_r
      by (apply Z.lt_gt, pow2_pos; unfold K; lia).
    reflexivity.
  - apply Z.compare_lt_iff. by apply (canonical_lt s1 s2).
  - apply Z.compare_gt_iff. by apply (canonical_lt s2 s1).
Qed.

Lemma SFcompare_val (x y : spec_float) :
  finite x = true -> finite y = true ->
  valid_binary x = true -> valid_binary y = true ->
  SFcompare x y = Some (val x ?= val y).
Proof.
  intros Hfx Hfy Hvx Hvy.
  destruct x as [sx|sx| |sx mx ex], y as [sy|sy| |sy my ey]; try discriminate.
  - reflexivity.
  - destruct (valid_finite _ _ _ Hvy) as (Hey & _).
    pose proof (sc_positive my ey ltac:(unfold K; lia)).
    unfold SFcompare, val. f_equal. symmetry. destruct sy; unfold cond_Zopp.
    + apply Z.compare_gt_iff. lia.
    + apply Z.compare_lt_iff. lia.
  - destruct (valid_finite _ _ _ Hvx) as (Hex & _).
    pose proof (sc_positive mx ex ltac:(unfold K; lia)).
    unfold SFcompare, val. f_equal. symmetry. destruct sx; unfold cond_Zopp.
    + apply Z.compare_lt_iff. lia.
    + apply Z.compare_gt_iff. lia.
  - destruct (valid_finite _ _ _ Hvx) as (Hex & _).
    destruct (valid_finite _ _ _ Hvy) as (Hey & _).
    pose proof (sc_positive mx ex ltac:(unfold K; lia)).
    pose proof (sc_positive my ey ltac:(unfold K; lia)).
    unfold SFcompare, val. f_equal. destruct sx, sy; unfold cond_Zopp.
    + rewrite Z.compare_opp, (canonical_compare _ _ _ _ _ _ Hvy Hvx).
      rewrite (Z.compare_antisym ex ey).
      change (Pos.compare_cont Eq my mx) with (Pos.compare my mx).
      change (Pos.compare_cont Eq mx my) with (Pos.compare mx my).
      rewrite (Pos.compare_antisym mx my). by destruct (ex ?= ey).
    + symmetry. apply Z.compare_lt_iff. lia.
    + symmetry. apply Z.compare_gt_iff. lia.
    + by rewrite (canonical_compare _ _ _ _ _ _ Hvx Hvy).
Qed.

(** ** The primitive operations *)


Lemma add_bound (x y : float) (B : Z) :
  Bfin x -> Bfin y -> Z.abs (B2Z x + B2Z y) < 2 ^ (B + K) -> B <= 972 ->
  Bfin (x + y)%float
  /\ 2 * Z.abs (B2Z (x + y)%float - (B2Z x + B2Z y)) <= 2 ^ (fexp prec emax B + K).
Proof.
  intros Hx Hy Hlt HB. unfold Bfin, B2Z in *. rewrite FloatAxioms.add_spec.
  apply SFadd_bound; auto using Prim2SF_valid.
Qed.

Lemma mul_bound (x y : float) (B : Z) :
  Bfin x -> Bfin y -> Z.abs (B2Z x * B2Z y) < 2 ^ (B + K + K) -> - K <= B <= 972 ->
  Bfin (x * y)%float
  /\ 2 * Z.abs (B2Z (x * y)%float * 2 ^ K - B2Z x * B2Z y)
     <= 2 ^ (fexp prec emax B + K + K).
Proof.
  intros Hx Hy Hlt HB. unfold Bfin, B2Z in *. rewrite FloatAxioms.mul_spec.
  apply SFmul_bound; auto using Prim2SF_valid.
Qed.

Lemma of_int_exact (i : Z) :
  0 <= i < 2 ^ 53 ->
  Bfin (of_uint63 (Uint63.of_Z i)) /\ B2Z (of_uint63 (Uint63.of_Z i)) = i * 2 ^ K.
Proof.
  intros Hi. unfold Bfin, B2Z. rewrite FloatAxioms.of_uint63_spec, Uint63.of_Z_spec.
  rewrite Z.mod_small by (change wB with (2 ^ 63); lia).
  destruct (normalize_bound i 0 53) as (Hfin & _ & Hex); [lia| |lia|].
  - rewrite Z.abs_eq by lia. rewrite (Z.pow_add_r 2 53 K) by (unfold K; lia).
    apply Z.mul_lt_mono_pos_r; [apply pow2_pos; unfold K; lia|lia].
  - split; [exact Hfin|]. rewrite Hex by lia. reflexivity.
Qed.

Lemma ltb_val (x y : float) :
  Bfin x -> Bfin y -> B2Z x < B2Z y -> (x <? y)%float = true.
Proof.
  intros Hx Hy Hlt. rewrite FloatAxioms.ltb_spec. unfold SFltb.
  rewrite SFcompare_val by auto using Prim2SF_valid.
  fold (B2Z x) (B2Z y). by rewrite (proj2 (Z.compare_lt_iff _ _) Hlt).
Qed.

Lemma leb_abs_val (x b : float) :
  Bfin b -> (abs x <=? b)%float = true -> Bfin x /\ Z.abs (B2Z x) <= B2Z b.
Proof.
  unfold Bfin, B2Z. intros Hb Hle. rewrite FloatAxioms.leb_spec, FloatAxioms.abs_spec in Hle.
  pose proof (Prim2SF_valid x) as Hvx. pose proof (Prim2SF_valid b) as Hvb.
  destruct (Prim2SF x) as [sx|sx| |sx mx ex] eqn:Hx.
  - split; [done|]. simpl val.
    unfold SFleb in Hle. rewrite SFcompare_val in Hle by done.
    simpl val in Hle. revert Hle.
    destruct (Z.compare_spec 0 (val (Prim2SF b))) as [Hc|Hc|Hc]; intros Hle;
      try done; change (Z.abs 0) with 0; lia.
  - exfalso. destruct (Prim2SF b); try done.
  - exfalso. destruct (Prim2SF b); try done.
  - split; [done|].
    unfold SFleb in Hle. rewrite SFcompare_val in Hle by done.
    simpl val in Hle. simpl val. rewrite abs_cond_Zopp.
    destruct (valid_finite _ _ _ Hvx) as (Hex & _).
    pose proof (sc_positive mx ex ltac:(unfold K; lia)).
    rewrite Z.abs_eq by lia. revert Hle.
    destruct (Z.compare_spec (sc (Zpos mx) ex) (val (Prim2SF b))) as [Hc|Hc|Hc];
      intros Hle; try done; lia.
Qed.

(** ** The times of the generator *)


Lemma w_pos : 0 < w.
Proof. apply pow2_pos. unfold K. lia. Qed.

Lemma pow_w (e : Z) : 0 <= e -> 2 ^ (e + (K - 56)) = 2 ^ e * w.
Proof. intros. unfold w. apply Z.pow_add_r; unfold K; lia. Qed.

Lemma tenth_val : Bfin tenth /\ B2Z tenth = Mc * w.
Proof. split; reflexivity. Qed.

Lemma pow_K : 2 ^ K = 2 ^ 56 * w.
Proof. rewrite <- pow_w by lia. reflexivity. Qed.

Lemma cancel_unit (d b u : Z) : 0 < u -> 2 * Z.abs (d * u) <= b * u -> 2 * Z.abs d <= b.
Proof.
  intros Hu H. rewrite Z.abs_mul, (Z.abs_eq u) in H by lia.
  apply (Z.mul_le_mono_pos_r _ _ u); [exact Hu|]. lia.
Qed.

(** The time of sample [i] is within [(2^51 + 2^40) w] of
    [t + i * 0.1]. *)
Lemma time_bound (t : float) (i : nat) :
  Bfin t -> Z.abs (B2Z t) <= (2 ^ 49 - 2 ^ 37) * 2 ^ 56 * w ->
  Z.of_nat i <= 2 ^ 40 ->
  Bfin (timeAt t i)
  /\ Z.abs (B2Z (timeAt t i) - (B2Z t + Mc * (Z.of_nat i * w)))
     <= (2 ^ 51 + 2 ^ 40) * w.
Proof.
  intros Ht Hmag Hi. unfold timeAt, float64_of_int.
  destruct (Z.ltb_spec (Z.of_nat i) 0) as [?|_]; [lia|].
  destruct (of_int_exact (Z.of_nat i)) as [HI HIv]; [lia|].
  destruct tenth_val as [Hc Hcv].
  pose proof w_pos as Hw. rewrite pow_K in HIv.
  set (I := of_uint63 (Uint63.of_Z (Z.of_nat i))) in *.
  set (iw := Z.of_nat i * w).
  assert (Hiw : 0 <= iw <= 2 ^ 40 * w) by (unfold iw; nia).
  (* the product *)
  assert (HK2 : 2 ^ (38 + K + K) = (2 ^ 94 * w) * (2 ^ 56 * w)).
  { replace (38 + K + K) with ((94 + (K - 56)) + K) by lia.
    rewrite (Z.pow_add_r 2 (94 + (K - 56)) K) by (unfold K; lia).
    by rewrite pow_w, pow_K by lia. }
  assert (HE2 : 2 ^ (fexp prec emax 38 + K + K) = (2 ^ 41 * w) * (2 ^ 56 * w)).
  { rewrite fexp64. replace (Z.max (38 - 53) (-1074) + K + K)
      with ((41 + (K - 56)) + K) by lia.
    rewrite (Z.pow_add_r 2 (41 + (K - 56)) K) by (unfold K; lia).
    by rewrite pow_w, pow_K by lia. }
  assert (Hprod : B2Z I * B2Z tenth = (Mc * iw) * (2 ^ 56 * w)).
  { rewrite HIv, Hcv. unfold iw. ring. }
  destruct (mul_bound I tenth 38 HI Hc) as [Ha Haerr].
  { rewrite Hprod, HK2. rewrite Z.abs_eq by (unfold Mc; nia).
    apply Z.mul_lt_mono_pos_r; [lia|]. unfold Mc. lia. }
  { unfold K. lia. }
  rewrite HE2, pow_K, Hprod in Haerr.
  replace (B2Z (I * tenth)%float * (2 ^ 56 * w) - Mc * iw * (2 ^ 56 * w))
    with ((B2Z (I * tenth)%float - Mc * iw) * (2 ^ 56 * w)) in Haerr by ring.
  apply cancel_unit in Haerr; [|lia].
  (* the sum *)
  assert (HK1 : 2 ^ (49 + K) = 2 ^ 105 * w).
  { replace (49 + K) with (105 + (K - 56)) by lia. by rewrite pow_w by lia. }
  assert (HE1 : 2 ^ (fexp prec emax 49 + K) = 2 ^ 52 * w).
  { rewrite fexp64. replace (Z.max (49 - 53) (-1074) + K) with (52 + (K - 56)) by lia.
    by rewrite pow_w by lia. }
  destruct (add_bound t (I * tenth)%float 49 Ht Ha) as [HT HTerr].
  { rewrite HK1. unfold Mc in *. lia. }
  { lia. }
  rewrite HE1 in HTerr. split; [exact HT|]. unfold Mc in *. lia.
Qed.

Lemma increasing_app (l1 l2 : list float) :
  increasing l1 = true -> increasing l2 = true ->
  (forall a b, last l1 = Some a -> head l2 = Some b -> (a <? b)%float = true) ->
  increasing (l1 ++ l2) = true.
Proof.
  induction l1 as [|t l1 IH]; intros H1 H2 Hlink; [exact H2|].
  destruct l1 as [|u rest].
  - destruct l2 as [|b l2]; [reflexivity|].
    change (increasing ([t] ++ b :: l2)) with ((t <? b)%float && increasing (b :: l2)).
    rewrite (Hlink t b eq_refl eq_refl), H2. reflexivity.
  - change (increasing ((t :: u :: rest) ++ l2))
      with ((t <? u)%float && increasing ((u :: rest) ++ l2)).
    change (increasing (t :: u :: rest))
      with ((t <? u)%float && increasing (u :: rest)) in H1.
    apply andb_prop in H1 as [Htu Hrest]. rewrite Htu. simpl andb.
    apply IH; [exact Hrest|exact H2|].
    intros a b Ha Hb. apply Hlink; [|exact Hb]. exact Ha.
Qed.

Lemma increasing_map_seq (f : nat -> float) (n : nat) : forall a : nat,
  (forall i, (a <= i)%nat -> (S i < a + n)%nat -> (f i <? f (S i))%float = true) ->
  increasing (map f (seq a n)) = true.
Proof.
  induction n as [|n IH]; intros a Hstep; [reflexivity|].
  destruct n as [|n]; [reflexivity|].
  change (increasing (map f (seq a (S (S n)))))
    with ((f a <? f (S a))%float && increasing (map f (seq (S a) (S n)))).
  rewrite (Hstep a) by lia. simpl andb. apply IH.
  intros i Hi1 Hi2. apply Hstep; lia.
Qed.


Lemma step_lt (t : float) (i : nat) :
  Bfin t -> Z.abs (B2Z t) <= Bd -> Z.of_nat (S i) <= 2 ^ 40 ->
  (timeAt t i <? timeAt t (S i))%float = true.
Proof.
  intros Ht Hmag Hi. unfold Bd in Hmag.
  destruct (time_bound t i Ht Hmag ltac:(lia)) as [H1 E1].
  destruct (time_bound t (S i) Ht Hmag Hi) as [H2 E2].
  apply ltb_val; [exact H1|exact H2|].
  replace (Z.of_nat (S i) * w) with (Z.of_nat i * w + w) in E2 by lia.
  pose proof w_pos. unfold Mc in *. lia.
Qed.

Lemma next_start (t : float) (c : nat) :
  Bfin t -> Z.abs (B2Z t) <= Bd -> Z.of_nat c <= 2 ^ 40 ->
  Bfin (timeAt t c)
  /\ Z.abs (B2Z (timeAt t c)) <= Z.abs (B2Z t) + (Z.of_nat c + 1) * (2 ^ 56 * w).
Proof.
  intros Ht Hmag Hc. unfold Bd in Hmag.
  destruct (time_bound t c Ht Hmag Hc) as [H1 E1]. split; [exact H1|].
  pose proof w_pos.
  assert (0 <= Z.of_nat c * w) by nia.
  replace ((Z.of_nat c + 1) * (2 ^ 56 * w))
    with (2 ^ 56 * (Z.of_nat c * w) + 2 ^ 56 * w) by ring.
  unfold Mc in *. lia.
Qed.

Lemma cross_lt (t : float) (c : nat) :
  Bfin t -> Z.abs (B2Z t) <= Bd -> Z.of_nat (S c) <= 2 ^ 40 ->
  Z.abs (B2Z (timeAt t (S c))) <= Bd ->
  (timeAt t c <? timeAt (timeAt t (S c)) 0)%float = true.
Proof.
  intros Ht Hmag Hc Hmag'. unfold Bd in *.
  destruct (time_bound t c Ht Hmag ltac:(lia)) as [H1 E1].
  destruct (time_bound t (S c) Ht Hmag Hc) as [H2 E2].
  destruct (time_bound (timeAt t (S c)) 0 H2 Hmag' ltac:(lia)) as [H3 E3].
  apply ltb_val; [exact H1|exact H3|].
  replace (Z.of_nat (S c) * w) with (Z.of_nat c * w + w) in E2 by lia.
  change (Z.of_nat 0 * w) with 0 in E3.
  pose proof w_pos. unfold Mc in *. lia.
Qed.

Lemma last_map_seq (f : nat -> float) (n : nat) : forall a : nat,
  last (map f (seq a (S n))) = Some (f (a + n)%nat).
Proof.
  induction n as [|n IH]; intros a.
  - simpl. by rewrite Nat.add_0_r.
  - change (last (map f (seq a (S (S n))))) with (last (map f (seq (S a) (S n)))).
    rewrite IH. f_equal. f_equal. lia.
Qed.

Lemma head_mainTimes (n c : nat) (t b : float) :
  head (mainTimes n (Z.of_nat (S c)) t) = Some b -> b = timeAt t 0.
Proof.
  destruct n as [|n]; [done|].
  cbn [mainTimes]. rewrite Nat2Z.id. by intros [= <-].
Qed.

Lemma mainTimes_increasing (c n : nat) : forall t : float,
  Bfin t -> Z.of_nat c <= 2 ^ 40 ->
  Z.abs (B2Z t) + Z.of_nat n * ((Z.of_nat c + 1) * (2 ^ 56 * w)) <= Bd ->
  increasing (mainTimes n (Z.of_nat c) t) = true.
Proof.
  pose proof w_pos as Hw.
  set (u := (Z.of_nat c + 1) * (2 ^ 56 * w)).
  assert (Hu : 0 < u) by (unfold u; nia).
  induction n as [|n IH]; intros t Ht Hc Hbud; [reflexivity|].
  replace (Z.of_nat (S n) * u) with (Z.of_nat n * u + u) in Hbud by lia.
  assert (0 <= Z.of_nat n * u) by nia.
  assert (Hmag : Z.abs (B2Z t) <= Bd) by lia.
  destruct (next_start t c Ht Hmag Hc) as [Ht' Hmag']. fold u in Hmag'.
  cbn [mainTimes]. rewrite Nat2Z.id.
  change (t + float64_of_int (Z.of_nat c) * tenth)%float with (timeAt t c).
  assert (Hrest : increasing (mainTimes n (Z.of_nat c) (timeAt t c)) = true)
    by (apply IH; [exact Ht'|exact Hc|lia]).
  destruct c as [|c]; [exact Hrest|].
  apply increasing_app; [|exact Hrest|].
  - unfold batchTimes. apply increasing_map_seq.
    intros i _ Hi. apply step_lt; [exact Ht|exact Hmag|lia].
  - intros a b Ha Hb. unfold batchTimes in Ha. rewrite last_map_seq in Ha.
    injection Ha as <-. apply head_mainTimes in Hb as ->. simpl Nat.add.
    apply cross_lt; [exact Ht|exact Hmag|exact Hc|lia].
Qed.


Lemma startBound_val : Bfin startBound /\ B2Z startBound = (2 ^ 49 - 2 ^ 41) * 2 ^ 56 * w.
Proof. split; reflexivity. Qed.

Theorem times_increase (count : Z) (turns : nat) (t0 : float) :
  0 <= count -> (abs t0 <=? startBound)%float = true ->
  Z.of_nat turns * (count + 1) <= 2 ^ 40 ->
  increasing (mainTimes turns count t0) = true.
Proof.
  intros Hc Hle Hbud.
  destruct startBound_val as [Hb Hbv].
  destruct (leb_abs_val t0 startBound Hb Hle) as [Ht Hmag]. rewrite Hbv in Hmag.
  destruct turns as [|n]; [reflexivity|].
  rewrite <- (Z2Nat.id count Hc) in *.
  set (c := Z.to_nat count) in *.
  pose proof w_pos.
  apply mainTimes_increasing; [exact Ht|nia|].
  unfold Bd.
  replace (Z.of_nat (S n) * ((Z.of_nat c + 1) * (2 ^ 56 * w)))
    with ((Z.of_nat (S n) * (Z.of_nat c + 1)) * (2 ^ 56 * w)) by ring.
  assert (Z.of_nat (S n) * (Z.of_nat c + 1) * (2 ^ 56 * w) <= 2 ^ 40 * (2 ^ 56 * w)).
  { apply Z.mul_le_mono_nonneg_r; [lia|exact Hbud]. }
  lia.
Qed.

End Binary64Facts.

(** At 1e17 a step of 0.1 is lost in the rounding of the sum. *)
Lemma times_stall_at_1e17 : batchTimes 2 1e17%float = [1e17%float; 1e17%float].
Proof. vm_compute. reflexivity. Qed.

(** At 2^49 the times of a batch of four are not all different. *)
Lemma times_collide_at_2p49 : increasing (batchTimes 4 0x1p49%float) = false.
Proof. vm_compute. reflexivity. Qed.

(** C9 (as stated): the time fields do not go up from every start: from
    1e17 the two samples of a batch carry the same time. *)
Lemma times_always_increase_fails : ~ times_always_increase.
Proof.
  intros Hclaim.
  specialize (Hclaim (fun x => x) (fun x => x) 2%Z 1e17%float _
                     (generateIQData_spec _ _ 2%Z 1e17%float ltac:(lia))).
  rewrite map_map in Hclaim. vm_compute in Hclaim. discriminate.
Qed.

(** C9 (amended). For a count that is not negative, the batch has [count]
    samples and sample [i] is [{t, Sin t, Cos t}] with
    [t = startTime + float64(i)*0.1] in [float64] arithmetic (product and
    sum each rounded to nearest), and the next batch of [main] starts at
    [startTime + float64(count)*0.1]. When moreover the start is at most
    [2^49 - 2^41] in absolute value and the run has [turns] batches with
    [turns * (count + 1) <= 2^40], the time fields of the run go up
    strictly, inside every batch and from every batch to the next. *)
Theorem generator_batch (Sin Cos : float -> float) (count : Z) (startTime : float) :
  (0 <= count)%Z ->
  (exists data,
     generateIQData Sin Cos count startTime = Some data
     /\ length data = Z.to_nat count
     /\ (forall i, i < Z.to_nat count ->
           data !! i = Some (mkIQData (timeAt startTime i)
                                      (Sin (timeAt startTime i))
                                      (Cos (timeAt startTime i))))
     /\ mainTurn Sin Cos count startTime
        = Some (data, (startTime + float64_of_int count * tenth)%float))
  /\ (forall turns : nat,
        (abs startTime <=? startBound)%float = true ->
        (Z.of_nat turns * (count + 1) <= 2 ^ 40)%Z ->
        exists batches,
          mainBatches Sin Cos turns count startTime = Some batches
          /\ length batches = turns
          /\ increasing (timesOf batches) = true).
Proof.
  intros Hc. split.
  - exists (map (sampleAt Sin Cos startTime) (seq 0 (Z.to_nat count))).
    split; [by apply generateIQData_spec|].
    split; [by rewrite length_map, length_seq|]. split.
    + intros i Hi. rewrite list_lookup_fmap, lookup_seq_lt by done. reflexivity.
    + unfold mainTurn. by rewrite generateIQData_spec.
  - intros turns Hstart Hrun.
    destruct (mainBatches_times Sin Cos turns count startTime Hc)
      as (batches & Hb & Hlen & Htimes).
    exists batches. split; [done|]. split; [done|].
    rewrite Htimes. by apply Binary64Facts.times_increase.
Qed.

Lemma generator_batch_witness :
  (exists data,
     generateIQData (fun x => x) (fun x => x) 3 1e14%float = Some data
     /\ length data = Z.to_nat 3
     /\ (forall i, i < Z.to_nat 3 ->
           data !! i = Some (mkIQData (timeAt 1e14%float i)
                                      (timeAt 1e14%float i) (timeAt 1e14%float i)))
     /\ mainTurn (fun x => x) (fun x => x) 3 1e14%float
        = Some (data, (1e14 + float64_of_int 3 * tenth)%float))
  /\ (exists batches,
        mainBatches (fun x => x) (fun x => x) 5 3 1e14%float = Some batches
        /\ length batches = 5
        /\ increasing (timesOf batches) = true).
Proof.
  destruct (generator_batch (fun x => x) (fun x => x) 3%Z 1e14%float ltac:(lia))
    as [Hbatch Hrun].
  split; [exact Hbatch|]. apply (Hrun 5); [reflexivity|lia].
Defined.

(** ** Handlers running at the same time *)

Module InterleavingFacts.
Import Interleaving.

(** Two turns of the scheduler take a fresh thread through its whole
    handler. *)
Lemma step_twice (r : Req) (s : Store) :
  (let '(t1, s1) := step (spawn r) s in step t1 s1) = handle r s.
Proof. destruct r; reflexivity. Qed.

Lemma sched_middle (done rest : list Thread) (t : Thread) (s : Store) :
  sched (mkConfig (done ++ t :: rest) s) (length done)
  = mkConfig (done ++ fst (step t s) :: rest) (snd (step t s)).
Proof.
  unfold sched. simpl. rewrite list_lookup_middle by done.
  destruct (step t s) as [t' s']. simpl.
  by rewrite insert_app_r_alt, Nat.sub_diag by lia.
Qed.

(** Run one after the other, the threads do what the handlers do in
    sequence. *)
Lemma run_serial (rs : list Req) : forall (done : list Thread) (s : Store),
  run (serial (length done) (length rs)) (mkConfig (done ++ map spawn rs) s)
  = mkConfig (done ++ fst (handleAll rs s)) (snd (handleAll rs s)).
Proof.
  induction rs as [|r rs IH]; intros done s; [reflexivity|].
  cbn [length serial map run foldl handleAll].
  rewrite !sched_middle.
  pose proof (step_twice r s) as H2. destruct (step (spawn r) s) as [t1 s1].
  cbn [fst snd]. rewrite H2. destruct (handle r s) as [t s'].
  cbn [fst snd]. destruct (handleAll rs s') as [ts s''] eqn:Hrest.
  specialize (IH (done ++ [t]) s').
  rewrite length_app, Nat.add_1_r, <- !app_assoc, Hrest in IH.
  exact IH.
Qed.

Lemma handle_bounded r s :
  length s <= maxDataPoints -> length (snd (handle r s)) <= maxDataPoints.
Proof. destruct r; simpl; [intros _; apply trim_length | done]. Qed.

Lemma handleAll_bounded (rs : list Req) : forall s,
  length s <= maxDataPoints -> length (snd (handleAll rs s)) <= maxDataPoints.
Proof.
  induction rs as [|r rs IH]; intros s Hs; simpl; [done|].
  pose proof (handle_bounded r s Hs) as Hr. destruct (handle r s) as [t s'].
  specialize (IH s' Hr). by destruct (handleAll rs s').
Qed.

(** A snapshot sent in a sequential run is the store left by the
    requests before it. *)
Lemma handleAll_snapshot (rs : list Req) : forall s i snap,
  fst (handleAll rs s) !! i = Some (GetDone snap) ->
  rs !! i = Some Get /\ snap = snd (handleAll (take i rs) s).
Proof.
  induction rs as [|r rs IH]; intros s i snap; simpl; [done|].
  destruct (handle r s) as [t s'] eqn:Hr.
  destruct (handleAll rs s') as [ts s''] eqn:Hrest.
  destruct i as [|i]; simpl.
  - intros [= ->]. destruct r; simpl in Hr; [done|]. by injection Hr as <- <-.
  - intros Hi. rewrite Hr.
    specialize (IH s' i snap). rewrite Hrest in IH. destruct (IH Hi) as [? ->].
    by destruct (handleAll (take i rs) s').
Qed.

End InterleavingFacts.

(** C7 (as stated): with handlers running at the same time a snapshot can
    see the buffer between the append and the trim of a POST, with more than
    [maxDataPoints] samples. *)
Lemma snapshot_between_append_and_trim : ~ Interleaving.snapshots_bounded.
Proof.
  intros Hclaim.
  specialize (Hclaim [Interleaving.Post (ramp 1001); Interleaving.Get] [0; 1] 1
                     (ramp 1001) eq_refl).
  unfold ramp in Hclaim. rewrite length_map, length_seq in Hclaim.
  unfold maxDataPoints in Hclaim. lia.
Qed.

(** C7 (amended). When the handlers run one at a time, each to its end
    before the next begins, a POST is one step of append and trim: the
    threads end as the sequential handlers end, the store is the sequential
    store, and every snapshot is the buffer left by the requests before it,
    with at most [maxDataPoints] samples. *)
Theorem serial_handlers_atomic (rs : list Interleaving.Req) :
  let cfg := Interleaving.run (Interleaving.serial 0 (length rs))
                              (Interleaving.start rs) in
  Interleaving.threads cfg = fst (Interleaving.handleAll rs iqStore_init)
  /\ Interleaving.iqStore cfg = snd (Interleaving.handleAll rs iqStore_init)
  /\ length (Interleaving.iqStore cfg) <= maxDataPoints
  /\ forall i snap,
       Interleaving.snapshotOf cfg i = Some snap ->
       rs !! i = Some Interleaving.Get
       /\ snap = snd (Interleaving.handleAll (take i rs) iqStore_init)
       /\ length snap <= maxDataPoints.
Proof.
  intros cfg.
  assert (Hcfg : cfg = Interleaving.mkConfig
                         (fst (Interleaving.handleAll rs iqStore_init))
                         (snd (Interleaving.handleAll rs iqStore_init))).
  { apply (InterleavingFacts.run_serial rs [] iqStore_init). }
  rewrite Hcfg. simpl.
  assert (Hinit : length iqStore_init <= maxDataPoints) by (simpl; lia).
  split; [done|]. split; [done|].
  split; [by apply InterleavingFacts.handleAll_bounded|].
  intros i snap Hsnap. unfold Interleaving.snapshotOf in Hsnap. simpl in Hsnap.
  destruct (fst (Interleaving.handleAll rs iqStore_init) !! i) as [t|] eqn:Hi; [|done].
  destruct t; try done. injection Hsnap as ->.
  destruct (InterleavingFacts.handleAll_snapshot rs _ _ _ Hi) as [Hget ->].
  split; [done|]. split; [done|].
  by apply InterleavingFacts.handleAll_bounded.
Qed.


(** * Further properties *)

(** ** The buffer update, batch by batch *)

(** X1. After an append the buffer holds the samples it had plus the batch,
    capped at the limit: [min (len s + len batch) limit] samples. *)
Theorem append_trim_length (limit : nat) (s batch : Store) :
  length (Buffer.append_trim limit s batch) = (length s + length batch) `min` limit.
Proof.
  unfold Buffer.append_trim. rewrite trim_length_eq, length_app. reflexivity.
Qed.

(** X2. A batch that fits the limit is kept whole at the end of the buffer
    and only the oldest samples go: the result is the old buffer without its
    first [len s + len batch - limit] samples, then the batch; nothing goes
    when both fit together. *)
Theorem append_trim_evicts_oldest (limit : nat) (s batch : Store) :
  length batch <= limit ->
  Buffer.append_trim limit s batch
  = drop (length s + length batch - limit) s ++ batch
  /\ (length s + length batch <= limit -> Buffer.append_trim limit s batch = s ++ batch).
Proof.
  intros Hb. unfold Buffer.append_trim. rewrite trim_drop, length_app. split.
  - rewrite drop_app.
    replace (length s + length batch - limit - length s) with 0 by lia.
    reflexivity.
  - intros Hfit. replace (length s + length batch - limit) with 0 by lia.
    reflexivity.
Qed.

Lemma append_trim_evicts_oldest_witness :
  storeAppend (ramp 995) (ramp 10)
  = drop (length (ramp 995) + length (ramp 10) - maxDataPoints) (ramp 995) ++ ramp 10
  /\ (length (ramp 995) + length (ramp 10) <= maxDataPoints ->
      storeAppend (ramp 995) (ramp 10) = ramp 995 ++ ramp 10).
Proof.
  apply (append_trim_evicts_oldest maxDataPoints (ramp 995) (ramp 10)).
  unfold ramp. rewrite length_map, length_seq. unfold maxDataPoints. lia.
Defined.

(** X3. Two batches appended one after the other leave the buffer that the
    two sent as one batch leave. *)
Theorem append_trim_split (limit : nat) (s b1 b2 : Store) :
  Buffer.append_trim limit (Buffer.append_trim limit s b1) b2
  = Buffer.append_trim limit s (b1 ++ b2).
Proof.
  unfold Buffer.append_trim. rewrite trim_app_trim. by rewrite app_assoc.
Qed.

(** X4. A batch of at least [limit] samples replaces the buffer, whatever it
    held: what is left is the last [limit] samples of the batch. *)
Theorem append_trim_replaces (limit : nat) (s batch : Store) :
  limit <= length batch ->
  Buffer.append_trim limit s batch = drop (length batch - limit) batch.
Proof.
  intros Hb. unfold Buffer.append_trim. rewrite trim_drop, length_app, drop_app.
  rewrite (drop_ge s) by lia. simpl. f_equal. lia.
Qed.

Lemma append_trim_replaces_witness :
  storeAppend (ramp 7) (ramp 1000) = drop (length (ramp 1000) - maxDataPoints) (ramp 1000).
Proof.
  apply (append_trim_replaces maxDataPoints (ramp 7) (ramp 1000)).
  unfold ramp. rewrite length_map, length_seq. unfold maxDataPoints. lia.
Defined.

(** ** The engine over a sequence of requests *)

Section EngineFacts.

Context {Payload BindError : Type}.
Variable bind : Payload -> BindError + Store.

Lemma isWebhookPost_true (r : @Request Payload) :
  isWebhookPost r = true -> r = POST_webhook (ReqBody r).
Proof.
  unfold isWebhookPost. intros [Hm Hp]%andb_prop.
  apply String.eqb_eq in Hm, Hp. destruct r; simpl in *. by subst.
Qed.

(** A request that is not a POST to the webhook leaves the store alone. *)
Lemma serve_other_store (r : @Request Payload) (s : Store) :
  isWebhookPost r = false -> snd (ServeHTTP bind r s) = s.
Proof.
  intros Hr. unfold ServeHTTP, route. fold (isWebhookPost r). rewrite Hr.
  unfold corsMiddleware. simpl.
  destruct (String.eqb (ReqMethod r) "OPTIONS"); [reflexivity|].
  destruct (_ && _); reflexivity.
Qed.

Lemma serve_store (r : @Request Payload) (s : Store) :
  snd (ServeHTTP bind r s) = Buffer.append_all maxDataPoints s (acceptedOf bind r).
Proof.
  unfold acceptedOf. destruct (isWebhookPost r) eqn:Hr.
  - rewrite (isWebhookPost_true r Hr), serve_post, postWebhook_store. simpl.
    destruct (bind (ReqBody r)); reflexivity.
  - by apply serve_other_store.
Qed.

Lemma serveAll_store (rs : list (@Request Payload)) : forall s,
  snd (serveAll bind rs s) = Buffer.append_all maxDataPoints s (accepted bind rs).
Proof.
  induction rs as [|r rs IH]; intros s; [reflexivity|].
  simpl. pose proof (serve_store r s) as Hr.
  destruct (ServeHTTP bind r s) as [c s']. simpl in Hr.
  specialize (IH s'). destruct (serveAll bind rs s') as [cs s'']. simpl in *.
  rewrite IH, Hr. unfold accepted, Buffer.append_all. simpl.
  by rewrite foldl_app.
Qed.

(** X5. Whatever requests the engine serves from the empty store, the
    store ends as the last [maxDataPoints] samples of the batches that
    POSTs to the webhook got bound, in the order of the requests, and never
    holds more than [maxDataPoints]. *)
Theorem served_store_is_recent_history (rs : list (@Request Payload)) :
  snd (serveAll bind rs iqStore_init)
  = Buffer.trim maxDataPoints (concat (accepted bind rs))
  /\ length (snd (serveAll bind rs iqStore_init)) <= maxDataPoints.
Proof.
  rewrite serveAll_store, append_all_history by (simpl; lia).
  split; [reflexivity | apply trim_length].
Qed.

(** X6. Only a POST to [/webhook] can change the store: any other request,
    whatever its method, path and body, leaves it as it was. *)
Theorem only_webhook_post_writes (r : @Request Payload) (s : Store) :
  isWebhookPost r = false -> snd (ServeHTTP bind r s) = s.
Proof.
  intros Hr. unfold ServeHTTP, route. fold (isWebhookPost r). rewrite Hr.
  unfold corsMiddleware. simpl.
  destruct (String.eqb (ReqMethod r) "OPTIONS"); [reflexivity|].
  destruct (_ && _); reflexivity.
Qed.

(** X7. The answers of both routes carry the four CORS headers of the
    middleware and the JSON content type, for every body and store. *)
Theorem routed_answers_carry_cors (body : Payload) (s : Store) :
  let c1 := fst (ServeHTTP bind (POST_webhook body) s) in
  let c2 := fst (ServeHTTP bind (GET_iq_data body) s) in
  hasCORS c1
  /\ Header c1 !! "Content-Type"%string = Some ["application/json; charset=utf-8"%string]
  /\ hasCORS c2
  /\ Header c2 !! "Content-Type"%string = Some ["application/json; charset=utf-8"%string].
Proof.
  intros c1 c2. unfold c1, c2, hasCORS. rewrite serve_post, serve_get.
  unfold postWebhook.
  destruct (bind body); repeat split; vm_compute; reflexivity.
Qed.

(** X8. A request with a method other than GET, POST and OPTIONS matches no
    route: the engine answers 404 and writes the text [404 page not found],
    the answer still carries the CORS headers, and the store is as it
    was. *)
Theorem other_methods_not_found (r : @Request Payload) (s : Store) :
  ReqMethod r <> "GET"%string -> ReqMethod r <> "POST"%string ->
  ReqMethod r <> "OPTIONS"%string ->
  exists c, ServeHTTP bind r s = (c, s)
    /\ Status c = StatusNotFound
    /\ Sent c = BodyText "404 page not found"
    /\ hasCORS c
    /\ Header c !! "Content-Type"%string = Some ["text/plain"%string].
Proof.
  intros Hg Hp Ho. apply String.eqb_neq in Hg, Hp, Ho.
  unfold ServeHTTP, route, corsMiddleware. simpl. rewrite Hg, Hp, Ho. simpl.
  eexists. split; [reflexivity|]. unfold hasCORS.
  repeat split; vm_compute; reflexivity.
Qed.

(** X9. A POST whose body binds to no samples at all is answered 200 and
    leaves a store within the limit exactly as it was. *)
Theorem empty_batch_leaves_store (body : Payload) (s : Store) :
  bind body = inr [] -> length s <= maxDataPoints ->
  exists c, ServeHTTP bind (POST_webhook body) s = (c, s) /\ Status c = StatusOK.
Proof.
  intros Hb Hs. rewrite serve_post. unfold postWebhook. rewrite Hb.
  rewrite app_nil_r. destruct (Nat.ltb_spec maxDataPoints (length s)); [lia|].
  eexists. split; reflexivity.
Qed.

(** X10. A GET right after a POST that was bound sends the buffer with
    that batch in it: the old buffer, then the batch, trimmed. *)
Theorem query_after_post (body body' : Payload) (newData s : Store) :
  bind body = inr newData ->
  exists c1 c2,
    serveAll bind [POST_webhook body; GET_iq_data body'] s
    = ([c1; c2], storeAppend s newData)
    /\ Status c1 = StatusOK /\ Status c2 = StatusOK
    /\ Sent c2 = BodySamples (Buffer.trim maxDataPoints (s ++ newData)).
Proof.
  intros Hb. unfold serveAll. rewrite serve_post.
  unfold postWebhook. rewrite Hb.
  do 2 eexists. split; [reflexivity|]. repeat split.
Qed.

End EngineFacts.

Lemma only_webhook_post_writes_witness :
  snd (server (mkRequest "POST" "/api/iq-data"
                 (Some (JArray [JObject [("time"%string, JNumber 1%float)]])))
              (ramp 3))
  = ramp 3.
Proof. apply (only_webhook_post_writes bindJSON). reflexivity. Defined.

Lemma other_methods_not_found_witness :
  exists c, server (mkRequest "DELETE" "/webhook" None) (ramp 3) = (c, ramp 3)
    /\ Status c = StatusNotFound
    /\ Sent c = BodyText "404 page not found"
    /\ hasCORS c
    /\ Header c !! "Content-Type"%string = Some ["text/plain"%string].
Proof.
  apply (other_methods_not_found bindJSON (mkRequest "DELETE" "/webhook" None));
    simpl; discriminate.
Defined.

Lemma empty_batch_leaves_store_witness :
  exists c, server (POST_webhook (Some (JArray []))) (ramp 3) = (c, ramp 3)
            /\ Status c = StatusOK.
Proof.
  apply (empty_batch_leaves_store bindJSON (Some (JArray []))).
  - reflexivity.
  - unfold ramp. rewrite length_map, length_seq. unfold maxDataPoints. lia.
Defined.

Lemma query_after_post_witness :
  exists c1 c2,
    serveAll bindJSON
      [POST_webhook (Some (JArray [JObject [("time"%string, JNumber 7%float)]]));
       GET_iq_data None] (ramp 2)
    = ([c1; c2], storeAppend (ramp 2) [mkIQData 7%float 0%float 0%float])
    /\ Status c1 = StatusOK /\ Status c2 = StatusOK
    /\ Sent c2 = BodySamples (Buffer.trim maxDataPoints
                                (ramp 2 ++ [mkIQData 7%float 0%float 0%float])).
Proof.
  apply (query_after_post bindJSON
           (Some (JArray [JObject [("time"%string, JNumber 7%float)]])) None).
  reflexivity.
Defined.

(** ** What the generator writes and the server reads *)

Lemma decode_marshal (d : IQData) :
  fitsSample d = true -> decodeIQData (marshalIQData d) = (d, true).
Proof.
  unfold fitsSample. intros [[Ht Hr]%andb_prop Hi]%andb_prop.
  destruct d as [t r i]. simpl in *.
  unfold decodeMember. simpl. rewrite Ht. simpl. rewrite Hr. simpl. rewrite Hi.
  reflexivity.
Qed.

Lemma decode_marshal_all (data : Store) :
  forallb fitsSample data = true ->
  map decodeIQData (map marshalIQData data) = map (fun d => (d, true)) data.
Proof.
  induction data as [|d data IH]; intros Hfit; [reflexivity|].
  cbn [forallb] in Hfit. apply andb_prop in Hfit as [Hd Hdata].
  cbn [map]. by rewrite decode_marshal, IH.
Qed.

Lemma depth_marshal (data : Store) :
  list_max (map depth (map marshalIQData data)) <= 1.
Proof. induction data as [|d data IH]; simpl; lia. Qed.

Lemma scannable_marshal (data : Store) :
  scannable (JArray (map marshalIQData data)) = true.
Proof.
  unfold scannable. apply Nat.leb_le. cbn [depth].
  pose proof (depth_marshal data).
  assert (2 <= maxNestingDepth) by (apply Nat.leb_le; reflexivity). lia.
Qed.

Lemma bind_marshal (data : Store) :
  forallb fitsSample data = true ->
  bindJSON (Some (JArray (map marshalIQData data))) = inr data.
Proof.
  intros Hfit. rewrite bindJSON_scanned by apply scannable_marshal.
  unfold decodeValue. rewrite decode_marshal_all by done.
  assert (Hok : forallb snd (map (fun d : IQData => (d, true)) data) = true)
    by (clear Hfit; induction data; simpl; auto).
  rewrite Hok, map_map. simpl. by rewrite map_id.
Qed.

(** X11. Round trip: a batch whose fields are all finite is written by
    [json.Marshal], and what the server binds from that body is the batch
    itself, sample for sample. *)
Theorem marshal_then_bind (data : Store) :
  forallb fitsSample data = true ->
  exists jsonData, Marshal data = Some jsonData /\ bindJSON (Some jsonData) = inr data.
Proof.
  intros Hfit. exists (JArray (map marshalIQData data)). split.
  - unfold Marshal. by rewrite Hfit.
  - by apply bind_marshal.
Qed.

Lemma marshal_then_bind_witness :
  exists jsonData, Marshal (ramp 5) = Some jsonData
                   /\ bindJSON (Some jsonData) = inr (ramp 5).
Proof. apply (marshal_then_bind (ramp 5)). vm_compute. reflexivity. Defined.

Lemma fitsSample_setField f v d :
  fits v = true -> fitsSample d = true -> fitsSample (setField f v d) = true.
Proof.
  unfold fitsSample. intros Hv [[Ht Hr]%andb_prop Hi]%andb_prop.
  destruct f; simpl; rewrite ?Hv, ?Ht, ?Hr, ?Hi; reflexivity.
Qed.

Lemma decodeMember_fits acc m :
  fitsSample (fst acc) = true -> fitsSample (fst (decodeMember acc m)) = true.
Proof.
  intros Hacc. unfold decodeMember.
  destruct (findField (fst m)); [|done].
  destruct (snd m); try done.
  destruct (fits v) eqn:Hv; [|done]. simpl. by apply fitsSample_setField.
Qed.

Lemma decode_members_fits members : forall acc,
  fitsSample (fst acc) = true ->
  fitsSample (fst (foldl decodeMember acc members)) = true.
Proof.
  induction members as [|m ms IH]; intros acc Hacc; simpl; [done|].
  apply IH. by apply decodeMember_fits.
Qed.

Lemma decodeIQData_fits v : fitsSample (fst (decodeIQData v)) = true.
Proof.
  assert (Hz : fitsSample IQData_zero = true) by (vm_compute; reflexivity).
  destruct v; simpl; try exact Hz.
  by apply decode_members_fits.
Qed.

Lemma Forall_fits_forallb (data : Store) :
  Forall (fun d => fitsSample d = true) data -> forallb fitsSample data = true.
Proof. induction 1 as [|d data Hd _ IH]; simpl; [done|]. by rewrite Hd, IH. Qed.

(** Whatever the binder lets through is finite in every field. *)
Lemma bindJSON_fits body data :
  bindJSON body = inr data -> Forall (fun d => fitsSample d = true) data.
Proof.
  unfold bindJSON. destruct body as [v|]; [|done].
  destruct (scannable v); [|done].
  destruct v as [| | | |elems|]; try done; simpl.
  - intros [= <-]. constructor.
  - destruct (forallb _ _); [|done]. intros [= <-].
    rewrite map_map. apply Forall_fmap. apply Forall_forall.
    intros v _. apply decodeIQData_fits.
Qed.

Lemma accepted_fits (rs : list (@Request (option JSONValue))) :
  Forall (fun d => fitsSample d = true) (concat (accepted bindJSON rs)).
Proof.
  unfold accepted. induction rs as [|r rs IH]; simpl; [constructor|].
  rewrite concat_app. apply Forall_app. split; [|exact IH].
  unfold acceptedOf. destruct (isWebhookPost r); [|constructor].
  destruct (bindJSON (ReqBody r)) eqn:Hb; simpl; [constructor|].
  rewrite app_nil_r. by apply bindJSON_fits in Hb.
Qed.

(** X12. The store of the server never holds a NaN or an infinity, whatever
    requests it has served, so [json.Marshal] can always write the answer
    to a GET. *)
Theorem served_store_marshals (rs : list (@Request (option JSONValue))) :
  let s := snd (serveAll bindJSON rs iqStore_init) in
  Forall (fun d => fitsSample d = true) s
  /\ exists jsonData, Marshal s = Some jsonData.
Proof.
  intros s.
  assert (Hs : Forall (fun d => fitsSample d = true) s).
  { unfold s. rewrite serveAll_store, append_all_history by (simpl; lia).
    simpl. rewrite trim_drop. apply Forall_drop, accepted_fits. }
  split; [exact Hs|].
  exists (JArray (map marshalIQData s)). unfold Marshal.
  by rewrite (Forall_fits_forallb s Hs).
Qed.

(** ** Sending a batch *)

Lemma server_takes_batch (data s : Store) :
  forallb fitsSample data = true ->
  sendToWebhook postToServer data s = (None, storeAppend s data).
Proof.
  intros Hfit. unfold sendToWebhook, Marshal. rewrite Hfit.
  unfold postToServer, server. rewrite serve_post. unfold postWebhook.
  rewrite bind_marshal by done. reflexivity.
Qed.

(** X13. The generator sending to the server: a batch with only finite
    fields is answered 200 and lands in the store, appended and trimmed; a
    batch with a NaN or an infinity is never sent and the store stays as it
    was.  The server never turns a batch of the generator down. *)
Theorem send_to_server (data s : Store) :
  sendToWebhook postToServer data s
  = if forallb fitsSample data then (None, storeAppend s data)
    else (Some ErrMarshaling, s).
Proof.
  destruct (forallb fitsSample data) eqn:Hfit.
  - unfold sendToWebhook, Marshal. rewrite Hfit.
    unfold postToServer, server. rewrite serve_post. unfold postWebhook.
    rewrite bind_marshal by done. reflexivity.
  - unfold sendToWebhook, Marshal. rewrite Hfit. reflexivity.
Qed.

(** X14. [sendToWebhook] returns no error exactly when the batch could be
    written as JSON and the request was answered with status 200; any other
    status, 201 or 204 included, is an error. *)
Theorem send_succeeds_iff {World : Type} (Do : JSONValue -> World -> RoundTrip * World)
        (data : Store) (w w' : World) :
  sendToWebhook Do data w = (None, w')
  <-> exists jsonData, Marshal data = Some jsonData
                       /\ Do jsonData w = (Answered StatusOK, w').
Proof.
  unfold sendToWebhook. split.
  - destruct (Marshal data) as [j|]; [|done].
    destruct (Do j w) as [[| |code] w''] eqn:HDo; try done.
    destruct (Nat.eqb_spec code StatusOK) as [->|Hne]; [|done].
    intros [= ->]. by exists j.
  - intros (j & -> & ->). reflexivity.
Qed.

(** ** The loop of the generator *)

Section LoopFacts.

Context {World : Type}.
Variable Do : JSONValue -> World -> RoundTrip * World.
Variables Sin Cos : float -> float.

(** X15. What the generator produces does not depend on how the sends go:
    for a count that is not negative, [n] turns give [n] batches, the same
    ones whatever the other end answers; a batch whose send failed is not
    sent again and the time moves on all the same. *)
Theorem generator_ignores_send_outcome (n : nat) (dataPoints : Z)
        (currentTime : float) (w : World) :
  (0 <= dataPoints)%Z ->
  exists sent t' w',
    mainLoop Do Sin Cos n dataPoints currentTime w = Some (sent, t', w')
    /\ mainBatches Sin Cos n dataPoints currentTime = Some (map fst sent)
    /\ length sent = n.
Proof.
  intros Hp. revert currentTime w. induction n as [|n IH]; intros currentTime w.
  - by exists [], currentTime, w.
  - cbn [mainLoop mainBatches]. unfold mainTurn.
    rewrite generateIQData_spec by done.
    destruct (sendToWebhook Do _ w) as [err w1].
    destruct (IH (currentTime + float64_of_int dataPoints * tenth)%float w1)
      as (sent & t' & w' & -> & -> & Hlen).
    eexists _, _, _. split; [reflexivity|]. split; [reflexivity|].
    simpl. lia.
Qed.

End LoopFacts.

Lemma generator_ignores_send_outcome_witness :
  exists sent t' w',
    mainLoop postToServer (fun x => x) (fun x => x) 3 2 currentTime_init (ramp 4)
    = Some (sent, t', w')
    /\ mainBatches (fun x => x) (fun x => x) 3 2 currentTime_init = Some (map fst sent)
    /\ length sent = 3.
Proof.
  apply (generator_ignores_send_outcome postToServer (fun x => x) (fun x => x) 3 2
           currentTime_init (ramp 4)).
  lia.
Defined.

Section EndToEnd.

Variables Sin Cos : float -> float.

Lemma loop_against_server (n : nat) (dataPoints : Z) :
  forall (currentTime : float) (s : Store) (batches : list Store),
    mainBatches Sin Cos n dataPoints currentTime = Some batches ->
    forallb fitsSample (concat batches) = true ->
    exists sent t',
      mainLoop postToServer Sin Cos n dataPoints currentTime s
      = Some (sent, t', Buffer.append_all maxDataPoints s batches)
      /\ map fst sent = batches
      /\ Forall (fun x => snd x = None) sent.
Proof.
  induction n as [|n IH]; intros currentTime s batches Hb Hfit.
  - injection Hb as <-. by exists [], currentTime.
  - cbn [mainLoop mainBatches] in *. unfold mainTurn in Hb.
    destruct (generateIQData Sin Cos dataPoints currentTime) as [data|]; [|done].
    destruct (mainBatches Sin Cos n dataPoints _) as [rest|] eqn:Hrest; [|done].
    injection Hb as <-. simpl in Hfit. rewrite forallb_app in Hfit.
    apply andb_prop in Hfit as [Hdata Hfit].
    rewrite (server_takes_batch data s Hdata).
    destruct (IH _ (storeAppend s data) rest Hrest Hfit) as (sent & t' & -> & <- & Hall).
    eexists _, _. split; [reflexivity|]. split; [reflexivity|].
    constructor; [reflexivity | exact Hall].
Qed.

(** X16. The generator against the server, from the empty store: when the
    samples of the first [n] batches are all finite, every send comes back
    without an error and the store holds the last [maxDataPoints] samples
    generated, oldest first. *)
Theorem generator_fills_server (n : nat) (dataPoints : Z) (currentTime : float)
        (batches : list Store) :
  mainBatches Sin Cos n dataPoints currentTime = Some batches ->
  forallb fitsSample (concat batches) = true ->
  exists sent t',
    mainLoop postToServer Sin Cos n dataPoints currentTime iqStore_init
    = Some (sent, t', Buffer.trim maxDataPoints (concat batches))
    /\ map fst sent = batches
    /\ Forall (fun x => snd x = None) sent.
Proof.
  intros Hb Hfit.
  destruct (loop_against_server n dataPoints currentTime iqStore_init batches Hb Hfit)
    as (sent & t' & Hrun & Hsent & Hall).
  exists sent, t'. split; [|done].
  rewrite Hrun. by rewrite append_all_history by (simpl; lia).
Qed.

End EndToEnd.

Lemma generator_fills_server_witness :
  exists sent t',
    mainLoop postToServer (fun x => x) (fun x => x) 2 2 0%float iqStore_init
    = Some (sent, t',
            Buffer.trim maxDataPoints
              (concat [ [sampleAt (fun x => x) (fun x => x) 0%float 0;
                         sampleAt (fun x => x) (fun x => x) 0%float 1];
                        [sampleAt (fun x => x) (fun x => x) (0 + 2 * tenth)%float 0;
                         sampleAt (fun x => x) (fun x => x) (0 + 2 * tenth)%float 1] ]))
    /\ map fst sent
       = [ [sampleAt (fun x => x) (fun x => x) 0%float 0;
            sampleAt (fun x => x) (fun x => x) 0%float 1];
           [sampleAt (fun x => x) (fun x => x) (0 + 2 * tenth)%float 0;
            sampleAt (fun x => x) (fun x => x) (0 + 2 * tenth)%float 1] ]
    /\ Forall (fun x => snd x = None) sent.
Proof.
  apply (generator_fills_server (fun x => x) (fun x => x) 2 2 0%float).
  - vm_compute. reflexivity.
  - vm_compute. reflexivity.
Defined.

(** ** The page *)

Section PageFacts.

Import Page.
Variables Sin Cos : float -> float.

Lemma updateGraph_iqData st : iqData (updateGraph st) = iqData st.
Proof.
  unfold updateGraph. destruct (dataLine st); [|done].
  by destruct (length (iqData st) <? 2).
Qed.

Lemma updateGraph_useTestData st : useTestData (updateGraph st) = useTestData st.
Proof.
  unfold updateGraph. destruct (dataLine st); [|done].
  by destruct (length (iqData st) <? 2).
Qed.

Lemma generateTestData_useTestData st :
  useTestData (generateTestData Sin Cos st) = useTestData st.
Proof. unfold generateTestData. by rewrite updateGraph_useTestData. Qed.

Lemma fetchData_test_mode resp resp' st :
  useTestData st = true ->
  fetchData Sin Cos resp st = fetchData Sin Cos resp' st
  /\ useTestData (fetchData Sin Cos resp st) = true.
Proof.
  intros Ht. unfold fetchData. rewrite Ht. split; [reflexivity|].
  by rewrite generateTestData_useTestData.
Qed.

(** X17. Test mode is for good: once [useTestData] is set, every later
    poll leaves it set and draws generated points only; what the server
    would answer no longer has any effect on the page. *)
Theorem test_mode_is_sticky (resps resps' : list Response) :
  length resps = length resps' ->
  forall st : State,
    useTestData st = true ->
    polls Sin Cos resps st = polls Sin Cos resps' st
    /\ useTestData (polls Sin Cos resps st) = true.
Proof.
  revert resps'. induction resps as [|r rs IH]; intros [|r' rs'] Hlen st Ht;
    simpl in Hlen; try lia.
  - by split.
  - unfold polls. simpl.
    destruct (fetchData_test_mode r r' st Ht) as [Heq Ht'].
    rewrite <- Heq. apply IH; [lia | exact Ht'].
Qed.

(** X18. [generateTestData] adds ten points and keeps the last hundred:
    afterwards the page holds [min (n + 10) 100] points. *)
Theorem test_data_window (st : State) :
  length (iqData (generateTestData Sin Cos st))
  = (length (iqData st) + 10) `min` 100.
Proof.
  unfold generateTestData. rewrite updateGraph_iqData. cbn [iqData].
  unfold sliceLast. rewrite length_drop, length_app, length_map, length_seq.
  lia.
Qed.

(** X19. A good answer replaces the points of the page with the data sent;
    the line is redrawn from them only if there are at least two, else the
    line drawn before stays on screen. *)
Theorem real_data_replaces (data : Store) (st : State) (line : list Vector3) :
  useTestData st = false -> dataLine st = Some line ->
  let st' := fetchData Sin Cos (Ok data) st in
  iqData st' = data
  /\ useTestData st' = false
  /\ statusMessage st' = "Connected to server - using real data"%string
  /\ dataLine st' = if length data <? 2 then Some line
                    else Some (map toVector data).
Proof.
  intros Ht Hl st'. unfold st', fetchData. rewrite Ht. simpl.
  rewrite updateGraph_iqData, updateGraph_useTestData. simpl.
  repeat split. unfold updateGraph. simpl. rewrite Hl.
  by destruct (length data <? 2).
Qed.

(** X20. With the requests served one at a time, so that no POST is
    between its append and its trim when the poll is answered, the page in
    real mode shows the store the requests have left: the points are that
    store, never more than [maxDataPoints], and the page does not fall into
    test mode. *)
Theorem page_shows_store (rs : list (@Request (option JSONValue))) (st : State) :
  useTestData st = false ->
  let s := snd (serveAll bindJSON rs iqStore_init) in
  let st' := fetchData Sin Cos (fetchFrom s) st in
  iqData st' = s /\ length (iqData st') <= maxDataPoints /\ useTestData st' = false.
Proof.
  intros Ht s st'.
  assert (Hfetch : fetchFrom s = Ok s) by reflexivity.
  assert (Hdata : iqData st' = s).
  { unfold st', fetchData. rewrite Hfetch, Ht. simpl. apply updateGraph_iqData. }
  split; [exact Hdata|]. split.
  - rewrite Hdata. unfold s.
    rewrite serveAll_store, append_all_history by (simpl; lia). apply trim_length.
  - unfold st', fetchData. rewrite Hfetch, Ht. simpl.
    by rewrite updateGraph_useTestData.
Qed.

(** X21. The first failed poll switches the page to test mode and cuts the
    real data down: of ninety or more points only the last ninety stay,
    followed by ten generated ones that go on from the last real time. *)
Theorem failure_keeps_last_ninety (resp : Response) (st : State) :
  useTestData st = false -> resp = NotOk \/ resp = Threw ->
  90 <= length (iqData st) ->
  let st' := fetchData Sin Cos resp st in
  useTestData st' = true
  /\ iqData st' = drop (length (iqData st) - 90) (iqData st)
                  ++ map (testPoint Sin Cos (timeCounterOf (iqData st))) (seq 0 10).
Proof.
  intros Ht Hresp Hlen st'. unfold st', fetchData. rewrite Ht.
  assert (Hdrop : forall testData : Store,
            length testData = 10 ->
            sliceLast 100 (iqData st ++ testData)
            = drop (length (iqData st) - 90) (iqData st) ++ testData).
  { intros testData H10. unfold sliceLast. rewrite length_app, H10, drop_app.
    replace (length (iqData st) + 10 - 100) with (length (iqData st) - 90) by lia.
    replace (length (iqData st) - 90 - length (iqData st)) with 0 by lia.
    reflexivity. }
  destruct Hresp as [-> | ->].
  - split; [by rewrite generateTestData_useTestData|].
    unfold generateTestData. rewrite updateGraph_iqData. cbn [iqData].
    apply Hdrop. by rewrite length_map, length_seq.
  - split; [by rewrite generateTestData_useTestData|].
    unfold generateTestData. rewrite updateGraph_iqData. cbn [iqData].
    apply Hdrop. by rewrite length_map, length_seq.
Qed.

End PageFacts.

Lemma test_mode_is_sticky_witness :
  Page.polls (fun x => x) (fun x => x) [Page.Ok (ramp 3); Page.NotOk]
             (Page.mkState (ramp 2) true "Server error - using simulated data" (Some []))
  = Page.polls (fun x => x) (fun x => x) [Page.Threw; Page.Threw]
               (Page.mkState (ramp 2) true "Server error - using simulated data" (Some []))
  /\ Page.useTestData
       (Page.polls (fun x => x) (fun x => x) [Page.Ok (ramp 3); Page.NotOk]
          (Page.mkState (ramp 2) true "Server error - using simulated data" (Some [])))
     = true.
Proof.
  apply (test_mode_is_sticky (fun x => x) (fun x => x)
           [Page.Ok (ramp 3); Page.NotOk] [Page.Threw; Page.Threw]);
    reflexivity.
Defined.

Lemma real_data_replaces_witness :
  let st' := Page.fetchData (fun x => x) (fun x => x) (Page.Ok (ramp 1))
               (Page.mkState (ramp 5) false "Connecting to server..."
                             (Some (map Page.toVector (ramp 5)))) in
  Page.iqData st' = ramp 1
  /\ Page.useTestData st' = false
  /\ Page.statusMessage st' = "Connected to server - using real data"%string
  /\ Page.dataLine st' = if length (ramp 1) <? 2 then Some (map Page.toVector (ramp 5))
                         else Some (map Page.toVector (ramp 1)).
Proof.
  apply (real_data_replaces (fun x => x) (fun x => x) (ramp 1)
           (Page.mkState (ramp 5) false "Connecting to server..."
                         (Some (map Page.toVector (ramp 5))))
           (map Page.toVector (ramp 5)));
    reflexivity.
Defined.

Lemma page_shows_store_witness :
  let s := snd (serveAll bindJSON
                  [POST_webhook (Some (JArray [JObject [("time"%string, JNumber 1%float)]]))]
                  iqStore_init) in
  let st' := Page.fetchData (fun x => x) (fun x => x) (Page.fetchFrom s) Page.mounted in
  Page.iqData st' = s /\ length (Page.iqData st') <= maxDataPoints
  /\ Page.useTestData st' = false.
Proof.
  apply (page_shows_store (fun x => x) (fun x => x)
           [POST_webhook (Some (JArray [JObject [("time"%string, JNumber 1%float)]]))]
           Page.mounted).
  reflexivity.
Defined.

Lemma failure_keeps_last_ninety_witness :
  let st := Page.mkState (ramp 95) false "Connected to server - using real data"
                         (Some (map Page.toVector (ramp 95))) in
  let st' := Page.fetchData (fun x => x) (fun x => x) Page.Threw st in
  Page.useTestData st' = true
  /\ Page.iqData st'
     = drop (length (Page.iqData st) - 90) (Page.iqData st)
       ++ map (Page.testPoint (fun x => x) (fun x => x)
                 (Page.timeCounterOf (Page.iqData st))) (seq 0 10).
Proof.
  apply (failure_keeps_last_ninety (fun x => x) (fun x => x) Page.Threw
           (Page.mkState (ramp 95) false "Connected to server - using real data"
                         (Some (map Page.toVector (ramp 95))))).
  - reflexivity.
  - right. reflexivity.
  - cbn [Page.iqData]. unfold ramp. rewrite length_map, length_seq. lia.
Defined.

(** ** Which bodies the server takes *)

Lemma decodeMember_verdict acc m :
  snd (decodeMember acc m) = snd acc && memberOK m.
Proof.
  unfold decodeMember, memberOK. destruct (findField (fst m)).
  - destruct (snd m); simpl; rewrite ?andb_true_r, ?andb_false_r; try reflexivity.
    destruct (fits v); simpl; by rewrite ?andb_true_r, ?andb_false_r.
  - by rewrite andb_true_r.
Qed.

Lemma decode_members_verdict members : forall acc,
  snd (foldl decodeMember acc members) = snd acc && forallb memberOK members.
Proof.
  induction members as [|m ms IH]; intros acc; simpl.
  - by rewrite andb_true_r.
  - by rewrite IH, decodeMember_verdict, andb_assoc.
Qed.

Lemma decodeIQData_verdict v : snd (decodeIQData v) = elemOK v.
Proof.
  destruct v; try reflexivity. simpl. by rewrite decode_members_verdict.
Qed.

(** X22. A body that is an array is taken or turned down as a whole.  The
    answer is 200, with one sample per element appended, when the value is
    nested no deeper than the scanner allows and every element is [null] or
    an object whose members bound to a field carry [null] or a number that
    fits a [float64]; otherwise the answer is 400 and none of its samples is
    stored. *)
Theorem array_body_verdict (elems : list JSONValue) (s : Store) :
  let '(c, s') := server (POST_webhook (Some (JArray elems))) s in
  if scannable (JArray elems) && forallb elemOK elems
  then Status c = StatusOK
       /\ s' = storeAppend s (map (fun v => fst (decodeIQData v)) elems)
  else Status c = StatusBadRequest /\ s' = s.
Proof.
  unfold server. rewrite serve_post. unfold postWebhook, bindJSON.
  destruct (scannable (JArray elems)); simpl; [|split; reflexivity].
  assert (Hv : forallb snd (map decodeIQData elems) = forallb elemOK elems).
  { induction elems as [|v vs IH]; simpl; [done|].
    by rewrite decodeIQData_verdict, IH. }
  rewrite Hv. destruct (forallb elemOK elems).
  - rewrite map_map. split; reflexivity.
  - split; reflexivity.
Qed.
